(** * The TSTyche store: tag resolution and compiler installation

    A shallow embedding of [src/store/CompilerModuleWorker.ts] and
    [src/store/StoreService.ts].  The asynchronous methods are sequential
    (every promise is awaited at once), so they are embedded as functions in
    a state-and-exception monad over a [World]: the file system below the
    store root, the lock indicators, and a chronological log of what the
    code did (system calls, spawned processes, dispatched events).  What the
    outside does (whether a system call fails, how the spawned installer
    ends, what a lock poll observes, the clock) is read from an [Env].

    The file system of a [World] follows the entries that the store's own
    code makes and looks at: installation directories, package descriptors
    and ready markers.  What the spawned npm writes below [node_modules],
    and the parent directories that a recursive [mkdir] makes on the way,
    are not followed: after an installation the disk holds more than the
    file system of the model does. *)

From Stdlib Require Import ZArith String Ascii List.
From stdpp Require Import base option list gmap strings pretty sorting.

Local Open Scope string_scope.
Local Open Scope Z_scope.

(** ** JavaScript values the store passes around *)

(** A thrown value.  [TypeError] is what calling [undefined] raises. *)
Inductive Error :=
| JsError (message : string)
| TypeError (message : string).

Definition message (e : Error) : string :=
  match e with JsError m | TypeError m => m end.

Inductive Result (A : Type) :=
| Ok (a : A)
| Throw (e : Error).
Arguments Ok {A} a.
Arguments Throw {A} e.

(** The object literal of [#getPackageJson], before [JSON.stringify]. *)
#[warnings="-register-all"]
Inductive Json :=
| JString (s : string)
| JBool (b : bool)
| JObject (members : list (string * Json)).

(** What [fs.writeFile] is given: a literal text, or the text
    [JSON.stringify(j, null, 2)] of an object, which is kept symbolic. *)
Inductive Content :=
| Text (s : string)
| JsonText (j : Json).

Inductive Node :=
| Dir
| File (content : Content).

Module Path.
(** Modelled from the spec: [Path.join] of [#path], which is not under
    src/.  The spec lays the store out as [<root>/<version>/__ready__] and
    [<root>/<version>/node_modules/typescript/lib/...]: the segments in
    order, separated by a slash. *)
Fixpoint join (segments : list string) : string :=
  match segments with
  | [] => "."
  | [s] => s
  | s :: rest => s +:+ "/" +:+ join rest
  end.

(** Modelled from the spec: [Path.join] handed a segment that is no
    string.  The spec has it join path segments, its segments are typed
    [string], and it is built on [join] of [node:path], which refuses any
    other value with a [TypeError] that says what it received. *)
Definition refused (received : string) : Error :=
  let quote := String (ascii_of_nat 34) EmptyString in
  TypeError
    ("The " +:+ quote +:+ "path" +:+ quote
     +:+ " argument must be of type string. Received " +:+ received).
End Path.

Module Version.
(** A version string is read as its dotted numeric components: a component
    ends at the first character that is not a digit, a dot or a dash starts
    a new one. *)
Definition digit (c : ascii) : option N :=
  let n := N_of_ascii c in
  if ((48 <=? n) && (n <=? 57))%N then Some (n - 48)%N else None.

(** [components_go cur skip s]: [cur] is the number read so far in the
    current component, [skip] says that its digits have ended. *)
Fixpoint components_go (cur : N) (skip : bool) (s : string) : list N :=
  match s with
  | EmptyString => [cur]
  | String c rest =>
      if (Ascii.eqb c "."%char || Ascii.eqb c "-"%char)%bool
      then cur :: components_go 0%N false rest
      else match digit c with
           | Some d =>
               if skip then components_go cur true rest
               else components_go (10 * cur + d)%N false rest
           | None => components_go cur true rest
           end
  end.

Definition components : string -> list N := components_go 0%N false.

(** [at_or_above source target]: [source >= target], component-wise,
    missing components being 0. *)
Fixpoint at_or_above (source target : list N) : bool :=
  match source, target with
  | _, [] => true
  | [], t :: target' => (t =? 0)%N && at_or_above [] target'
  | s :: source', t :: target' =>
      if (t <? s)%N then true
      else if (s =? t)%N then at_or_above source' target'
      else false
  end.

(** Modelled from the spec: [Version.satisfies] of [./Version.ts], which
    is not under src/.  The spec's Version Comparator "compares a concrete
    version string against a semantic boundary"; a version is "at or above
    the 5.3.0 boundary" or "below that boundary".  Two versions compare
    component by component, a missing component counting as 0, so that the
    boundary "5.3" is 5.3.0. *)
Definition satisfies (source target : string) : bool :=
  at_or_above (components source) (components target).
End Version.

Module Diagnostic.
Inductive Category := CategoryError | CategoryWarning.

(** Modelled from the spec: the [Diagnostic] class of [#diagnostic], which
    is not under src/: a "single-line or multi-line message plus a
    severity". *)
Record t := { category : Category; text : list string }.

(** Modelled from the spec: [Diagnostic.error], a diagnostic of severity
    error with the given lines. *)
Definition error (lines : list string) : t :=
  {| category := CategoryError; text := lines |}.

(** Modelled from the spec: [Diagnostic.warning], a diagnostic of severity
    warning with the given lines. *)
Definition warning (lines : list string) : t :=
  {| category := CategoryWarning; text := lines |}.

(** Modelled from the spec: [Diagnostic.fromError], the text "naming the
    operation [...] and, where applicable, the underlying cause
    appended". *)
Definition fromError (line : string) (e : Error) : t :=
  error [line; message e].
End Diagnostic.

(** ** The world the store runs in *)

(** The two events the store hands to [EventEmitter.dispatch]. *)
Inductive StoreEvent :=
| StoreInfo (compilerVersion installationPath : string)
| StoreError (diagnostics : list Diagnostic.t).

(** What the spawned installer reports back: the [error] and the [close]
    event of the child process. *)
Inductive ChildEvent :=
| ChildError (e : Error)
| ChildClose (code : option Z) (signal : option string).

(** One entry of the log.  System calls are logged when they are made,
    with whether they went through. *)
Inductive Event :=
| Dispatch (e : StoreEvent)
| LockPoll (path : string) (present : bool)
| Mkdir (path : string) (done : bool)
| LockNew (path : string) (done : bool)
| WriteFile (path : string) (content : Content) (done : bool)
| Spawn (command : string) (args : list string) (cwd : string)
| Child (cwd : string) (e : ChildEvent)
| LockRelease (path : string).

Record World := {
  fs : gmap string Node;
  locks : gset string;
  log : list Event;
}.

Record Env := {
  (** the error [fs.mkdir] fails with on a path, if it fails *)
  mkdir_error : string -> option Error;
  (** the error [fs.writeFile] fails with on a path, if it fails *)
  writeFile_error : string -> option Error;
  (** the events of the installer spawned in a directory: the first one and
      those after it *)
  npm : string -> ChildEvent * list ChildEvent;
  (** what the polls of a lock indicator observe, one after the other,
      until the timeout elapses or the caller cancels *)
  lock_polls : string -> list bool;
  (** [Date.now()], in the unit of [lastFetched] *)
  now : Z;
}.

(** ** The monad of the embedding *)

Definition M (A : Type) : Type := World -> Result A * World.

Definition ret {A} (a : A) : M A := fun w => (Ok a, w).

Definition bind {A B} (m : M A) (k : A -> M B) : M B :=
  fun w => match m w with
           | (Ok a, w') => k a w'
           | (Throw e, w') => (Throw e, w')
           end.

Definition throw {A} (e : Error) : M A := fun w => (Throw e, w).

(** [try { body } catch (error) { handler }] *)
Definition try_catch {A} (body : M A) (handler : Error -> M A) : M A :=
  fun w => match body w with
           | (Ok a, w') => (Ok a, w')
           | (Throw e, w') => handler e w'
           end.

Declare Scope js_scope.
Delimit Scope js_scope with js.
Notation "x <- m ;; k" := (bind m (fun x => k))
  (at level 100, m at next level, right associativity) : js_scope.
Notation "m ;;; k" := (bind m (fun _ => k))
  (at level 100, right associativity) : js_scope.
Local Open Scope js_scope.

Definition emit (e : Event) : M unit :=
  fun w => (Ok tt, {| fs := fs w; locks := locks w; log := log w ++ [e] |}).

Definition set_fs (f : gmap string Node -> gmap string Node) : M unit :=
  fun w => (Ok tt, {| fs := f (fs w); locks := locks w; log := log w |}).

Definition set_locks (f : gset string -> gset string) : M unit :=
  fun w => (Ok tt, {| fs := fs w; locks := f (locks w); log := log w |}).

(** [EventEmitter.dispatch] *)
Definition dispatch (e : StoreEvent) : M unit := emit (Dispatch e).

(** Calling a callback that may be [undefined]. *)
Definition call (callee : string) (f : option (Diagnostic.t -> StoreEvent))
    (d : Diagnostic.t) : M unit :=
  match f with
  | Some f => dispatch (f d)
  | None => throw (TypeError (callee +:+ " is not a function"))
  end.

(** [existsSync] *)
Definition existsSync (path : string) : M bool :=
  fun w => (Ok (bool_decide (is_Some (fs w !! path))), w).

Section Fs.
Context (env : Env).

(** [fs.mkdir(path, { recursive: true })]: the directory at [path], which
    may be there already.  The parents it makes on the way are not
    followed. *)
Definition mkdir (path : string) : M unit :=
  match mkdir_error env path with
  | Some e => emit (Mkdir path false) ;;; throw e
  | None =>
      emit (Mkdir path true) ;;;
      set_fs (fun f => match f !! path with
                       | Some _ => f
                       | None => <[path := Dir]> f
                       end)
  end.

(** [fs.writeFile(path, content)] *)
Definition writeFile (path : string) (content : Content) : M unit :=
  match writeFile_error env path with
  | Some e => emit (WriteFile path content false) ;;; throw e
  | None =>
      emit (WriteFile path content true) ;;;
      set_fs (fun f => <[path := File content]> f)
  end.
End Fs.

Module Lock.
(** Modelled from the spec: the [Lock] class of [./Lock.ts], which is not
    under src/.  A lock is "an advisory, path-scoped mutual-exclusion
    token", "identified by an installation path"; the paths claimed at the
    moment are the [locks] of the world. *)
Record t := { path : string }.

Section Lock.
Context (env : Env).

(** Modelled from the spec: the wait loop of [Lock.isLocked], which "polls
    for the presence of a lock indicator at path at a fixed interval" and
    "returns false as soon as the indicator disappears".  [observations]
    are what the polls still to come will see. *)
Fixpoint poll (target : string) (observations : list bool) : M bool :=
  match observations with
  | [] => ret true
  | present :: later =>
      emit (LockPoll target present) ;;;
      if present then poll target later
      else set_locks (fun l => l ∖ {[target]}) ;;; ret false
  end.

(** Modelled from the spec: [Lock.isLocked], which "returns true (still
    locked) if the indicator is present when the timeout elapses or the
    cancellation signal fires, reporting a diagnostic in that case; returns
    false as soon as the indicator disappears or was never present". *)
Definition isLocked (target : string) (onDiagnostic : string -> M unit)
    (timeout : Z) : M bool :=
  fun w =>
    if bool_decide (target ∈ locks w) then
      (stillLocked <- poll target (lock_polls env target) ;;
       if stillLocked : bool then
         onDiagnostic ("Lock wait timeout of " +:+ pretty (timeout / 1000)
                       +:+ "s was exceeded.") ;;;
         ret true
       else ret false) w
    else (Ok false, w).
End Lock.

(** Modelled from the spec: [new Lock(path)], which "atomically claims
    the path as locked (must fail loudly, not silently overwrite, if
    another party already claims it)". *)
Definition new (target : string) : M t :=
  fun w =>
    if bool_decide (target ∈ locks w) then
      (emit (LockNew target false) ;;;
       throw (JsError ("The path '" +:+ target +:+ "' is already locked."))) w
    else
      (emit (LockNew target true) ;;;
       set_locks (fun l => {[target]} ∪ l) ;;;
       ret {| path := target |}) w.

(** Modelled from the spec: [lock.release()], which "removes the lock
    indicator". *)
Definition release (lock : t) : M unit :=
  emit (LockRelease (path lock)) ;;;
  set_locks (fun l => l ∖ {[path lock]}).
End Lock.

Module CompilerModuleWorker.
(** The fields of the class.  [timeout] is [#timeout], that is
    [Environment.timeout * 1000]; [onDiagnostic] is optional because
    the constructor call in [StoreService] leaves it out. *)
Record t := {
  cachePath : string;
  onDiagnostic : option (Diagnostic.t -> StoreEvent);
  timeout : Z;
}.

Definition readyFileName : string := "__ready__".

(** [new CompilerModuleWorker(cachePath, onDiagnostic)] *)
Definition new (cachePath : string)
    (onDiagnostic : option (Diagnostic.t -> StoreEvent))
    (environmentTimeout : Z) : t :=
  {| cachePath := cachePath;
     onDiagnostic := onDiagnostic;
     timeout := environmentTimeout * 1000 |}.

(** [#getPackageJson] *)
Definition getPackageJson (version : string) : Content :=
  JsonText (JObject [
    ("name", JString "@tstyche/typescript");
    ("version", JString version);
    ("description",
      JString "Do not change. This package was generated by TSTyche");
    ("private", JBool true);
    ("license", JString "MIT");
    ("dependencies", JObject [("typescript", JString version)])
  ]).

Definition failedToInstall (compilerVersion : string) : string :=
  "Failed to install 'typescript@" +:+ compilerVersion +:+ "'.".

(** *** The promise of [#installPackage]

    A promise is settled by the first [resolve] or [reject] that reaches
    it; the later ones do nothing. *)
Definition Promise : Type := option (Result unit).

Definition settle (p : Promise) (r : Result unit) : Promise :=
  match p with
  | None => Some r
  | Some _ => p
  end.

Definition resolve (p : Promise) : Promise := settle p (Ok tt).
Definition reject (p : Promise) (e : Error) : Promise := settle p (Throw e).

(** [String(code)] *)
Definition String_of_code (code : option Z) : string :=
  match code with
  | Some c => pretty c
  | None => "null"
  end.

Section Worker.
Context (env : Env) (this : t).

(** [spawnedNpm.on("error", ...)] *)
Definition on_error (e : Error) (p : Promise) : Promise := reject p e.

(** [spawnedNpm.on("close", ...)]: the three statements run one after
    the other, none of them returns. *)
Definition on_close (code : option Z) (signal : option string)
    (p : Promise) : Promise :=
  let p := if bool_decide (code = Some 0) then resolve p else p in
  let p :=
    if bool_decide (signal <> None) then
      reject p (JsError ("Setup timeout of "
                         +:+ pretty (timeout this / 1000)
                         +:+ "s was exceeded."))
    else p in
  reject p (JsError ("Process exited with code "
                     +:+ String_of_code code +:+ ".")).

Definition handle (p : Promise) (e : ChildEvent) : Promise :=
  match e with
  | ChildError err => on_error err p
  | ChildClose code signal => on_close code signal p
  end.

(** The promise once the child's events have been handled.  Each handler
    settles a pending promise, so the first event leaves it settled. *)
Definition settled (events : ChildEvent * list ChildEvent) : Result unit :=
  match fold_left handle (snd events) (handle None (fst events)) with
  | Some r => r
  | None => Throw (JsError "unreachable: the promise is settled")
  end.

(** [#installPackage]: the spawn and what the child reports.  The files
    the installer writes below [cwd] are not followed. *)
Definition installPackage (cwd : string) : M unit :=
  let args := ["install"; "--ignore-scripts"; "--no-bin-links";
               "--no-package-lock"] in
  emit (Spawn "npm" args cwd) ;;;
  emit (Child cwd (fst (npm env cwd))) ;;;
  match settled (npm env cwd) with
  | Ok _ => ret tt
  | Throw e => throw e
  end.

(** [ensure] *)
Definition ensure (compilerVersion : string) : M (option string) :=
  let installationPath := Path.join [cachePath this; compilerVersion] in
  let readyFilePath := Path.join [installationPath; readyFileName] in
  let tsserverFilePath :=
    Path.join [installationPath; "node_modules"; "typescript"; "lib";
               "tsserverlibrary.js"] in
  let typescriptFilePath :=
    Path.join [installationPath; "node_modules"; "typescript"; "lib";
               "typescript.js"] in
  isLocked <- Lock.isLocked env installationPath
    (fun text =>
       call "this.#onDiagnostic" (onDiagnostic this)
         (Diagnostic.error [failedToInstall compilerVersion; text]))
    (timeout this) ;;
  if isLocked : bool then ret None
  else
    ready <- existsSync readyFilePath ;;
    (if negb ready then
       dispatch (StoreInfo compilerVersion installationPath) ;;;
       try_catch
         (mkdir env installationPath ;;;
          lock <- Lock.new installationPath ;;
          writeFile env (Path.join [installationPath; "package.json"])
            (getPackageJson compilerVersion) ;;;
          installPackage installationPath ;;;
          writeFile env readyFilePath (Text "") ;;;
          Lock.release lock)
         (fun error =>
            call "this.#onDiagnostic" (onDiagnostic this)
              (Diagnostic.fromError (failedToInstall compilerVersion)
                 error))
     else ret tt) ;;;
    if Version.satisfies compilerVersion "5.3"
    then ret (Some typescriptFilePath)
    else ret (Some tsserverFilePath).
End Worker.
End CompilerModuleWorker.

Module ManifestWorker.
(** Modelled from the spec: the [Manifest] type of [./ManifestWorker.ts],
    which is not under src/: "a structured record with fields resolutions
    (map<string,string>), versions (list<string>), lastFetched (epoch
    time), lastUsed (optional map<string, epoch time>)".  The resolutions
    keep the order in which [Object.keys] lists them, "insertion order is
    meaningful"; they are the object's own entries. *)
Record Manifest := {
  resolutions : list (string * string);
  versions : list string;
  lastFetched : Z;
  lastUsed : option (gmap string Z);
}.

(** The worker's two asynchronous methods are not under src/ either and no
    property below depends on what they do: they are fields. *)
Record t := {
  open : M (option Manifest);
  update : Manifest -> M Manifest;
}.

(** Modelled from the spec: [isOutdated], "true iff
    now - manifest.lastFetched > ageToleranceSeconds". *)
Definition isOutdated (env : Env) (manifest : Manifest)
    (ageTolerance : Z) : bool :=
  bool_decide (now env - lastFetched manifest > ageTolerance).
End ManifestWorker.

(** ** Objects and arrays *)

(** [Object.keys(o)] *)
Definition Object_keys {V} (o : list (string * V)) : list string := o.*1.

(** The property names that every object made by a literal or by
    [JSON.parse] inherits from [Object.prototype]. *)
Definition Object_prototype : list string :=
  ["constructor"; "__defineGetter__"; "__defineSetter__"; "hasOwnProperty";
   "__lookupGetter__"; "__lookupSetter__"; "isPrototypeOf";
   "propertyIsEnumerable"; "toString"; "valueOf"; "__proto__";
   "toLocaleString"].

(** What reading a property off an object of strings gives when it is
    there: one of the object's own values, a string, or the member that
    the object inherits under a name of [Object_prototype].  That member
    is a function, and for [__proto__] the prototype itself; it is no
    string, whatever the declared type of the object says. *)
Inductive Value :=
| Str (s : string)
| Inherited (name : string).

(** [`${v}`]: a string is itself, a function gives its source text, the
    prototype gives [[object Object]]. *)
Definition String_of_value (v : Value) : string :=
  match v with
  | Str s => s
  | Inherited name =>
      if bool_decide (name = "__proto__") then "[object Object]"
      else if bool_decide (name = "constructor")
           then "function Object() { [native code] }"
           else "function " +:+ name +:+ "() { [native code] }"
  end.

(** How [node:path] names an inherited member that it is handed where it
    expects a string. *)
Definition received (name : string) : string :=
  if bool_decide (name = "__proto__") then "an instance of Object"
  else if bool_decide (name = "constructor") then "function Object"
       else "function " +:+ name.

(** [o[key]]: the object's own entry, else the inherited member, else
    [undefined]. *)
Fixpoint get (o : list (string * string)) (key : string) : option Value :=
  match o with
  | [] =>
      if bool_decide (key ∈ Object_prototype) then Some (Inherited key)
      else None
  | (k, v) :: rest =>
      if bool_decide (k = key) then Some (Str v) else get rest key
  end.

(** [key in o]: true of the object's own keys and of the inherited ones. *)
Definition has {V} (o : list (string * V)) (key : string) : bool :=
  bool_decide (key ∈ Object_keys o) || bool_decide (key ∈ Object_prototype).

(** [a.includes(x)] *)
Definition includes (a : list string) (x : string) : bool :=
  bool_decide (x ∈ a).

(** [a.slice(-n)]: the last [n] elements, all of them when there are fewer. *)
Definition slice_last {A} (n : nat) (a : list A) : list A :=
  drop (length a - n)%nat a.

(** [s.slice(0, n)] *)
Definition slice_first (n : nat) (s : string) : string := substring 0 n s.

(** [s.startsWith(p)] *)
Definition startsWith (s p : string) : bool := String.prefix p s.

(** [a.sort()] without a comparator: ascending, by code units. *)
Definition sort (a : list string) : list string := merge_sort String.le a.

Module StoreService.
Import ManifestWorker.

Record t := {
  cachePath : string;
  compilerModuleWorker : CompilerModuleWorker.t;
  manifest : option Manifest;
  manifestWorker : ManifestWorker.t;
}.

(** The constructor: [storePath] is [Environment.storePath], [timeout] is
    [Environment.timeout].  The worker gets the cache path only. *)
Definition new (storePath : string) (timeout : Z)
    (manifestWorker : ManifestWorker.t) : t :=
  {| cachePath := storePath;
     compilerModuleWorker := CompilerModuleWorker.new storePath None timeout;
     manifest := None;
     manifestWorker := manifestWorker |}.

Definition with_manifest (this : t) (m : option Manifest) : t :=
  {| cachePath := cachePath this;
     compilerModuleWorker := compilerModuleWorker this;
     manifest := m;
     manifestWorker := manifestWorker this |}.

(** [#onDiagnostic] *)
Definition onDiagnostic (diagnostic : Diagnostic.t) : M unit :=
  dispatch (StoreError [diagnostic]).

Definition notOpen : Diagnostic.t :=
  Diagnostic.error
    ["Store manifest is not open. Call 'StoreService.open()' first."].

Definition mayBeOutdated (tag : string) : Diagnostic.t :=
  Diagnostic.warning
    ["Failed to update metadata of the 'typescript' package from the registry.";
     "The resolution of the '" +:+ tag +:+ "' tag may be outdated."].

(** [get supportedTags] *)
Definition supportedTags (this : t) : M (list string) :=
  match manifest this with
  | None => onDiagnostic notOpen ;;; ret []
  | Some manifest =>
      ret (sort (Object_keys (resolutions manifest) ++ versions manifest))
  end.

Section Service.
Context (env : Env).

(** [resolveTag] *)
Definition resolveTag (this : t) (tag : string) : M (option Value) :=
  match manifest this with
  | None => onDiagnostic notOpen ;;; ret None
  | Some manifest =>
      if includes (versions manifest) tag then ret (Some (Str tag))
      else
        let version := get (resolutions manifest) tag in
        (if isOutdated env manifest 60 &&
            includes (slice_last 5 (Object_keys (resolutions manifest))) tag
         then onDiagnostic (mayBeOutdated tag)
         else ret tt) ;;;
        ret version
  end.

(** [install]: it returns the module path, and the service with the
    manifest as the call leaves it.  When [resolveTag] has answered an
    inherited member, [ensure] is handed a value that is no string and
    stops at its first statement, where [Path.join] refuses it. *)
Definition install (this : t) (tag : string) : M (option string * t) :=
  match manifest this with
  | None => onDiagnostic notOpen ;;; ret (None, this)
  | Some manifest =>
      version <- resolveTag this tag ;;
      match version with
      | None =>
          onDiagnostic
            (Diagnostic.error
               ["Cannot add the 'typescript' package for the '" +:+ tag
                +:+ "' tag."]) ;;;
          ret (None, this)
      | Some version =>
          modulePath <-
            try_catch
              (match version with
               | Str version =>
                   CompilerModuleWorker.ensure env (compilerModuleWorker this)
                     version
               | Inherited name => throw (Path.refused (received name))
               end)
              (fun error =>
                 onDiagnostic
                   (Diagnostic.fromError
                      (CompilerModuleWorker.failedToInstall
                         (String_of_value version))
                      error) ;;;
                 ret None) ;;
          match modulePath with
          | Some _ =>
              let used := default ∅ (lastUsed manifest) in
              ret (modulePath,
                   with_manifest this
                     (Some {| resolutions := resolutions manifest;
                              versions := versions manifest;
                              lastFetched := lastFetched manifest;
                              lastUsed :=
                                Some (<[String_of_value version := now env]>
                                        used) |}))
          | None => ret (None, this)
          end
      end
  end.

(** [open] *)
Definition open (this : t) : M t :=
  match manifest this with
  | Some _ => ret this
  | None =>
      m <- ManifestWorker.open (manifestWorker this) ;;
      ret (with_manifest this m)
  end.

(** [update] *)
Definition update (this : t) : M t :=
  match manifest this with
  | None => onDiagnostic notOpen ;;; ret this
  | Some manifest =>
      m <- ManifestWorker.update (manifestWorker this) manifest ;;
      ret (with_manifest this (Some m))
  end.

(** [validateTag].  What [resolutions["latest"]] gives is sliced as a
    string; "latest" is no name of [Object_prototype], so it is one
    whenever it is there. *)
Definition validateTag (this : t) (tag : string) : M bool :=
  match manifest this with
  | None => onDiagnostic notOpen ;;; ret false
  | Some manifest =>
      if includes (versions manifest) tag || has (resolutions manifest) tag
      then ret true
      else
        (match get (resolutions manifest) "latest" with
         | Some (Str latest) =>
             if startsWith tag (slice_first 3 latest)
             then onDiagnostic (mayBeOutdated tag)
             else ret tt
         | Some (Inherited _) =>
             throw (TypeError "resolutions.latest.slice is not a function")
         | None => ret tt
         end) ;;;
        ret false
  end.
End Service.

(** [below root path]: the path is [root] or lies below it. *)
Definition below (root path : string) : bool :=
  bool_decide (path = root) || String.prefix (root +:+ "/") path.

(** Something is there at or below [root]: a file, a directory, or the
    lock indicator of a path. *)
Definition present (root : string) (w : World) : bool :=
  existsb (fun entry : string * Node => below root entry.1)
    (map_to_list (fs w))
  || existsb (below root) (elements (locks w)).

(** How a call of [fs.rm] that fails does fail: the error it throws, and
    the paths it had removed by then. *)
Record Failure := {
  thrown : Error;
  removed : string -> bool;
}.

(** The world without the paths that are [gone]: their files and
    directories, and their lock indicators. *)
Definition remove (gone : string -> bool) (w : World) : World :=
  {| fs := filter (fun entry : string * Node => gone entry.1 = false) (fs w);
     locks := filter (fun path => gone path = false) (locks w);
     log := log w |}.

(** [fs.rm(path, { force: true, recursive: true })].  With [force] a path
    that is not there is no error, whatever else is the matter.
    Otherwise the path and all that lies below it go, the lock indicators
    there among them, unless the call fails: then it throws, and what it
    had removed of them by then is gone. *)
Definition rm (failure : option Failure) (root : string) : M unit :=
  fun w =>
    if present root w then
      match failure with
      | Some f =>
          (Throw (thrown f),
           remove (fun path => below root path && removed f path) w)
      | None => (Ok tt, remove (below root) w)
      end
    else (Ok tt, w).

(** [prune] *)
Definition prune (rm_failure : option Failure) (this : t) : M unit :=
  rm rm_failure (cachePath this).

(** [#nodeRequire], the [require] that [createRequire] makes: resolving a
    module name to a path, and loading the module at a path.  [TS] stands
    for [typeof ts]; either call may throw. *)
Record NodeRequire (TS : Type) := {
  resolve : string -> Result string;
  require : string -> Result TS;
}.
Arguments resolve {TS} _ _.
Arguments require {TS} _ _.

Section Load.
Context {TS : Type} (env : Env) (nodeRequire : NodeRequire TS).

(** The [if (tag === "local")] block of [load]: the module path, if the
    local installation resolves, and the tag to go on with. *)
Definition load_local (tag : string) : option string * string :=
  if bool_decide (tag = "local") then
    match resolve nodeRequire "typescript/lib/tsserverlibrary.js" with
    | Ok path => (Some path, tag)
    | Throw _ => (None, "latest")
    end
  else (None, tag).

(** [load]: it returns what the call returns or throws, and the service
    with the manifest as the call leaves it. *)
Definition load (this : t) (tag : string) : M (Result (option TS) * t) :=
  let local := load_local tag in
  installed <-
    match local.1 with
    | Some path => ret (Some path, this)
    | None => install env this local.2
    end ;;
  match installed.1 with
  | Some path =>
      ret (match require nodeRequire path with
           | Ok module => Ok (Some module)
           | Throw e => Throw e
           end,
           installed.2)
  | None => ret (Ok None, installed.2)
  end.
End Load.
End StoreService.

(** ** A small store to run the code on *)

Module Scenario.
Import ManifestWorker.

(** The callback a caller hands to the worker: pass the diagnostic on as
    a [store:error] event, as [StoreService.#onDiagnostic] does. *)
Definition report (d : Diagnostic.t) : StoreEvent := StoreError [d].

Definition worker : CompilerModuleWorker.t :=
  CompilerModuleWorker.new "/store" (Some report) 30.

(** An empty store: nothing installed, nothing locked, nothing logged. *)
Definition empty : World := {| fs := ∅; locks := ∅; log := [] |}.

(** A store in which 5.4.2 is installed and marked ready. *)
Definition installed : World :=
  {| fs := {[ "/store/5.4.2" := Dir;
              "/store/5.4.2/__ready__" := File (Text "") ]};
     locks := ∅;
     log := [] |}.

(** Every system call goes through, no lock poll is granted, and the
    installer's first event is [first]. *)
Definition installer (first : ChildEvent) : Env :=
  {| mkdir_error := fun _ => None;
     writeFile_error := fun _ => None;
     npm := fun _ => (first, []);
     lock_polls := fun _ => [];
     now := 1700000000 |}.

Definition succeeds : Env := installer (ChildClose (Some 0) None).
Definition exits_1 : Env := installer (ChildClose (Some 1) None).
Definition times_out : Env := installer (ChildClose None (Some "SIGTERM")).

(** A manifest fetched at the instant the clock of [installer _] shows. *)
Definition fresh : Manifest :=
  {| resolutions :=
       [("5.0", "5.0.4"); ("5.1", "5.1.6"); ("5.2", "5.2.2");
        ("5.3", "5.3.3"); ("5.4", "5.4.2"); ("beta", "5.5.0-beta");
        ("latest", "5.4.2"); ("next", "5.5.0-dev.20240404");
        ("rc", "5.4.1-rc")];
     versions := ["5.0.4"; "5.1.6"; "5.2.2"; "5.3.3"; "5.4.2"];
     lastFetched := 1700000000;
     lastUsed := None |}.

(** The same manifest, fetched two hours earlier. *)
Definition stale : Manifest :=
  {| resolutions := resolutions fresh;
     versions := versions fresh;
     lastFetched := 1700000000 - 7200;
     lastUsed := None |}.

Definition manifestWorker (m : Manifest) : ManifestWorker.t :=
  {| open := ret (Some m); update := ret |}.

(** A service that was not opened, and one opened on a manifest. *)
Definition closed : StoreService.t :=
  StoreService.new "/store" 30 (manifestWorker fresh).

Definition opened (m : Manifest) : StoreService.t :=
  StoreService.with_manifest
    (StoreService.new "/store" 30 (manifestWorker m)) (Some m).
End Scenario.

(** ** Proof support *)

Local Open Scope list_scope.

Arguments Path.join : simpl never.
Arguments Version.satisfies : simpl never.

(** A world with the locks replaced and events appended to the log. *)
Definition World_with (w : World) (l : gset string) (events : list Event)
    : World :=
  {| fs := fs w; locks := l; log := log w ++ events |}.

Definition is_poll (e : Event) : Prop :=
  match e with LockPoll _ _ => True | _ => False end.

(** [reported w d]: the world after [StoreService.#onDiagnostic(d)]. *)
Definition reported (w : World) (d : Diagnostic.t) : World :=
  World_with w (locks w) [Dispatch (StoreError [d])].

(** The path [ensure] selects for a version: the file below
    [node_modules/typescript/lib] of the installation path. *)
Definition modulePath (this : CompilerModuleWorker.t) (v : string) : string :=
  let installationPath := Path.join [CompilerModuleWorker.cachePath this; v] in
  if Version.satisfies v "5.3"
  then installationPath +:+ "/node_modules/typescript/lib/typescript.js"
  else installationPath +:+ "/node_modules/typescript/lib/tsserverlibrary.js".

(** The error the installation of a version stops at, if it stops: that
    of the first of its four steps that fails. *)
Definition first_failure (env : Env) (this : CompilerModuleWorker.t)
    (v : string) : option Error :=
  let p := Path.join [CompilerModuleWorker.cachePath this; v] in
  match mkdir_error env p with
  | Some e => Some e
  | None =>
      match writeFile_error env (Path.join [p; "package.json"]) with
      | Some e => Some e
      | None =>
          match CompilerModuleWorker.settled this (npm env p) with
          | Throw e => Some e
          | Ok _ => writeFile_error env (Path.join [p; "__ready__"])
          end
      end
  end.

(** [touches_only p w w']: from [w] to [w'] the log has only grown and no
    lock but that of [p] has changed hands. *)
Definition touches_only (p : string) (w w' : World) : Prop :=
  (∃ new, log w' = log w ++ new) ∧
  (∀ q, q ≠ p → q ∈ locks w' ↔ q ∈ locks w).

(** A computation that takes every world to one it [touches_only]. *)
Definition frames {A} (p : string) (m : M A) : Prop :=
  ∀ w, touches_only p w (m w).2.

(** ** More stores to run the code on *)

Module Cases.
(** A store in which somebody holds the installation path of 5.4.2. *)
Definition held : World :=
  {| fs := ∅; locks := {[ "/store/5.4.2" ]}; log := [] |}.

(** A store in which 5.4.2 is installed and an installation of 5.5.2 was
    left with its lock, beside a project that is not part of the store. *)
Definition cluttered : World :=
  {| fs := {[ "/store/5.4.2" := Dir;
              "/store/5.4.2/__ready__" := File (Text "");
              "/project/package.json" := File (Text "{}") ]};
     locks := {[ "/store/5.5.2" ]};
     log := [] |}.

(** The holder keeps the path for the two polls the timeout allows. *)
Definition waits : Env :=
  {| mkdir_error := fun _ => None;
     writeFile_error := fun _ => None;
     npm := fun _ => (ChildClose (Some 0) None, []);
     lock_polls := fun _ => [true; true];
     now := 1700000000 |}.

(** A project with its own TypeScript, and one without. *)
Definition with_typescript : StoreService.NodeRequire string :=
  {| StoreService.resolve := fun _ =>
       Ok "/project/node_modules/typescript/lib/tsserverlibrary.js";
     StoreService.require := fun path => Ok ("module at " +:+ path) |}.

Definition without_typescript : StoreService.NodeRequire string :=
  {| StoreService.resolve := fun name =>
       Throw (JsError ("Cannot find module '" +:+ name +:+ "'"));
     StoreService.require := fun path => Ok ("module at " +:+ path) |}.
End Cases.

(** ** Paths *)

Lemma join2 a b : Path.join [a; b] = a +:+ "/" +:+ b.
Proof. reflexivity. Qed.

Lemma append_length a b :
  String.length (a +:+ b) = (String.length a + String.length b)%nat.
Proof. induction a as [|c a IH]; simpl; [done|]. by rewrite IH. Qed.

Lemma join_ne_parent a b : Path.join [a; b] ≠ a.
Proof.
  rewrite join2. intros H%(f_equal String.length).
  rewrite !append_length in H. simpl in H. lia.
Qed.

Lemma join_inj a b c : Path.join [a; b] = Path.join [a; c] → b = c.
Proof. rewrite !join2. intros H. by do 2 apply String.app_inj in H. Qed.

Lemma package_json_ne_ready p :
  Path.join [p; "package.json"] ≠ Path.join [p; "__ready__"].
Proof. by intros H%join_inj. Qed.

(** Creating the directory and writing the descriptor leave the ready
    marker as it was. *)
Lemma lookup_ready_mkdir (f : gmap string Node) p :
  f !! Path.join [p; "__ready__"] = None →
  match f !! p with Some _ => f | None => <[p:=Dir]> f end
    !! Path.join [p; "__ready__"] = None.
Proof.
  intros Hnone. destruct (f !! p); [done|].
  rewrite lookup_insert_ne; [done | apply not_eq_sym, join_ne_parent].
Qed.

Lemma lookup_ready_descriptor (f : gmap string Node) p c :
  f !! Path.join [p; "__ready__"] = None →
  <[Path.join [p; "package.json"]:=c]>
    (match f !! p with Some _ => f | None => <[p:=Dir]> f end)
    !! Path.join [p; "__ready__"] = None.
Proof.
  intros Hnone.
  rewrite lookup_insert_ne; [|apply package_json_ne_ready].
  by apply lookup_ready_mkdir.
Qed.

(** ** Waiting for a lock *)

Lemma World_with_nil w : World_with w (locks w) [] = w.
Proof. unfold World_with. destruct w; simpl. by rewrite app_nil_r. Qed.

Lemma poll_spec target obs w :
  ∃ l (b : bool),
    Forall is_poll l ∧
    Lock.poll target obs w =
      (Ok b, World_with w (if b then locks w else locks w ∖ {[target]}) l).
Proof.
  revert w. induction obs as [|present later IH]; intros w.
  - exists [], true. split; [constructor|]. by rewrite World_with_nil.
  - destruct present.
    + destruct (IH (World_with w (locks w) [LockPoll target true]))
        as (l & b & Hl & Hrun).
      exists (LockPoll target true :: l), b. split; [by constructor|].
      simpl. unfold bind, emit. simpl.
      unfold World_with in *. simpl in *. rewrite Hrun.
      by rewrite <- app_assoc.
    + exists [LockPoll target false], false. split; [by repeat constructor|].
      reflexivity.
Qed.

(** [Lock.isLocked] with the callback [ensure] gives it: the path is free
    afterwards, or the wait ran out and the callback was called, or the
    wait ran out and there was no callback to call. *)
Lemma isLocked_spec env target callee f mk timeout w :
  ∃ l, Forall is_poll l ∧
    ((∃ locks', (target ∉ locks') ∧ (target ∉ locks w → locks' = locks w ∧ l = []) ∧
        Lock.isLocked env target (fun text => call callee f (mk text)) timeout w
        = (Ok false, World_with w locks' l)) ∨
     (∃ fn text, f = Some fn ∧ target ∈ locks w ∧
        Lock.isLocked env target (fun text => call callee f (mk text)) timeout w
        = (Ok true, World_with w (locks w) (l ++ [Dispatch (fn (mk text))]))) ∨
     (∃ e, f = None ∧ target ∈ locks w ∧
        Lock.isLocked env target (fun text => call callee f (mk text)) timeout w
        = (Throw e, World_with w (locks w) l))).
Proof.
  unfold Lock.isLocked. case_bool_decide as Hin.
  - destruct (poll_spec target (lock_polls env target) w)
      as (l & b & Hl & Hrun).
    exists l. split; [done|]. unfold bind. rewrite Hrun.
    destruct b.
    + destruct f as [fn|]; [right; left | right; right].
      * eexists fn, _. repeat split; [done|].
        unfold call, dispatch, bind, emit, ret, World_with. simpl.
        by rewrite <- app_assoc.
      * eexists. repeat split; done.
    + left. eexists. split; [|split; [done|reflexivity]].
      rewrite elem_of_difference, elem_of_singleton. tauto.
  - exists []. split; [constructor|]. left. exists (locks w).
    split; [done|]. split; [done|]. by rewrite World_with_nil.
Qed.



(** ** The installer's promise *)

Section Promise.
Import CompilerModuleWorker.
Context (this : CompilerModuleWorker.t).

Lemma handle_settled r e : handle this (Some r) e = Some r.
Proof.
  destruct e as [err|code signal]; [done|].
  unfold handle, on_close, resolve, reject, settle.
  by repeat case_bool_decide.
Qed.

Lemma fold_handle_settled r events :
  fold_left (handle this) events (Some r) = Some r.
Proof.
  induction events as [|e events IH]; [done|].
  simpl. by rewrite handle_settled.
Qed.

End Promise.

(** Decides a closed decidable proposition by evaluating it. *)
Ltac by_compute := apply (bool_decide_unpack _); vm_compute; exact I.

(** ** Running [ensure] *)

Ltac run :=
  unfold bind, ret, throw, emit, set_fs, set_locks, dispatch, try_catch,
    existsSync, mkdir, writeFile, Lock.new, Lock.release,
    CompilerModuleWorker.installPackage, call; simpl.

(** Turns a goal about [ensure env this v w] into one goal for each way
    [Lock.isLocked] can end, with the run as a premise [... = (r, w1)]. *)
Ltac ensure_start env this v w :=
  let r := fresh "r" in
  let w1 := fresh "w1" in
  let Hrun := fresh "Hrun" in
  destruct (CompilerModuleWorker.ensure env this v w) as [r w1] eqn:Hrun;
  simpl; revert Hrun;
  unfold CompilerModuleWorker.ensure; cbv zeta;
  change CompilerModuleWorker.readyFileName with "__ready__";
  set (p := Path.join [CompilerModuleWorker.cachePath this; v]);
  unfold bind at 1;
  match goal with
  | |- context [Lock.isLocked env p ?cb ?t w] =>
      match cb with
      | (fun text => call ?callee ?f (@?mk text)) =>
          destruct (isLocked_spec env p callee f mk t w)
            as (l & Hl & [(locks' & Hfree & Hsame & ->)
                         |[(fn & text & Hf & Hin & ->)
                          |(e & Hf & Hin & ->)]])
      end
  end.

(** After a wait that found the path free: one goal for each way the
    installation can go, the world of each written out. *)
Ltac ensure_cases :=
  run; case_bool_decide as Hready; simpl;
  [|destruct (mkdir_error _ _) as [?|] eqn:Hmk; run;
    [|rewrite bool_decide_false by done; run;
      destruct (writeFile_error _ (Path.join [_; "package.json"]))
        as [?|] eqn:Hpkg; run;
      [|destruct (CompilerModuleWorker.settled _ _) as [[]|?] eqn:Hnpm; run;
        [destruct (writeFile_error _ (Path.join [_; "__ready__"]))
           as [?|] eqn:Hrdy; run|]]]];
  try destruct (CompilerModuleWorker.onDiagnostic _) eqn:Hcb; run;
  try destruct (Version.satisfies _ _) eqn:Hversion;
  intros [= <- <-]; simpl; rewrite <- ?app_assoc; simpl.


Ltac in_log :=
  rewrite ?elem_of_app, ?elem_of_cons, ?elem_of_nil.




(** What [ensure] answers: the selected path; or nothing, after a lock
    wait that ran out; or it throws, having no callback to report to. *)
Lemma ensure_result env this compilerVersion w :
  match (CompilerModuleWorker.ensure env this compilerVersion w).1 with
  | Ok (Some path) => path = modulePath this compilerVersion
  | Ok None =>
      Path.join [CompilerModuleWorker.cachePath this; compilerVersion]
        ∈ locks w
  | Throw _ => CompilerModuleWorker.onDiagnostic this = None
  end.
Proof.
  ensure_start env this compilerVersion w.
  - ensure_cases; try done.
    all: unfold modulePath; fold p; by rewrite Hversion.
  - run. by intros [= <- <-].
  - run. by intros [= <- <-].
Qed.

(** With a callback to report to, [ensure] never throws. *)
Lemma ensure_reports env this compilerVersion w fn :
  CompilerModuleWorker.onDiagnostic this = Some fn →
  ∃ answer,
    (CompilerModuleWorker.ensure env this compilerVersion w).1 = Ok answer.
Proof.
  intros Hfn.
  pose proof (ensure_result env this compilerVersion w) as H.
  destruct (CompilerModuleWorker.ensure env this compilerVersion w).1
    as [answer|e]; [by exists answer|congruence].
Qed.

(** On a path that nobody holds, [ensure] with a callback answers the
    selected path, however the installation went. *)
Lemma ensure_unlocked env this compilerVersion w fn :
  CompilerModuleWorker.onDiagnostic this = Some fn →
  Path.join [CompilerModuleWorker.cachePath this; compilerVersion] ∉ locks w →
  (CompilerModuleWorker.ensure env this compilerVersion w).1
  = Ok (Some (modulePath this compilerVersion)).
Proof.
  intros Hfn Hfree.
  pose proof (ensure_result env this compilerVersion w) as H.
  destruct (CompilerModuleWorker.ensure env this compilerVersion w).1
    as [[path|]|e]; [by subst|done|congruence].
Qed.

(** ** Versions *)

(** The boundary [5.3] is the boundary [5.3.0]. *)
Lemma at_or_above_5_3 l :
  Version.at_or_above l [5; 3]%N = Version.at_or_above l [5; 3; 0]%N.
Proof.
  destruct l as [|major [|minor [|patch l]]]; simpl; try done.
  destruct (5 <? major)%N, (major =? 5)%N; try done.
  destruct (3 <? minor)%N, (minor =? 3)%N; try done.
  destruct (N.ltb_spec 0 patch), (N.eqb_spec patch 0); try done.
  - by destruct l.
  - lia.
Qed.

Lemma satisfies_5_3 v :
  Version.satisfies v "5.3"
  = Version.at_or_above (Version.components v) [5; 3; 0]%N.
Proof. unfold Version.satisfies. by rewrite <- at_or_above_5_3. Qed.

(** ** Objects and arrays *)

Lemma get_Some (o : list (string * string)) key :
  key ∈ Object_keys o → ∃ v, get o key = Some (Str v) ∧ (key, v) ∈ o.
Proof.
  induction o as [|[k v] o IH]; simpl.
  - by intros ?%elem_of_nil.
  - intros Hin. case_bool_decide as Hk.
    + subst. exists v. split; [done|]. apply list_elem_of_here.
    + apply elem_of_cons in Hin as [Heq|Hin]; [by subst|].
      destruct (IH Hin) as (v' & Hget & Hv'). exists v'.
      split; [done|]. by apply list_elem_of_further.
Qed.

Lemma get_absent (o : list (string * string)) key :
  key ∉ Object_keys o →
  get o key
  = if bool_decide (key ∈ Object_prototype) then Some (Inherited key)
    else None.
Proof.
  induction o as [|[k v] o IH]; simpl; [done|].
  intros Hin. apply not_elem_of_cons in Hin as [Hne Hin].
  rewrite (bool_decide_false (k = key)) by congruence. by apply IH.
Qed.

Lemma get_None (o : list (string * string)) key :
  key ∉ Object_keys o → key ∉ Object_prototype → get o key = None.
Proof.
  intros Hkey Hproto. rewrite get_absent by done. by rewrite bool_decide_false.
Qed.

Lemma get_inherited (o : list (string * string)) key :
  key ∉ Object_keys o → key ∈ Object_prototype →
  get o key = Some (Inherited key).
Proof.
  intros Hkey Hproto. rewrite get_absent by done. by rewrite bool_decide_true.
Qed.

Lemma get_Inherited (o : list (string * string)) key name :
  get o key = Some (Inherited name) →
  name = key ∧ key ∈ Object_prototype ∧ key ∉ Object_keys o.
Proof.
  intros Hget. destruct (decide (key ∈ Object_keys o)) as [Hkey|Hkey].
  - destruct (get_Some o key Hkey) as (v & Hv & _). congruence.
  - rewrite (get_absent o key Hkey) in Hget.
    case_bool_decide; [|done]. by injection Hget as <-.
Qed.

Lemma get_is_Some (o : list (string * string)) key :
  is_Some (get o key) ↔ key ∈ Object_keys o ∨ key ∈ Object_prototype.
Proof.
  destruct (decide (key ∈ Object_keys o)) as [Hkey|Hkey].
  - destruct (get_Some o key Hkey) as (v & -> & _). split; [by left|done].
  - rewrite (get_absent o key Hkey).
    case_bool_decide as Hproto.
    + split; [by right|done].
    + split; [by intros [? ?]|tauto].
Qed.

Lemma latest_not_inherited (o : list (string * string)) name :
  get o "latest" ≠ Some (Inherited name).
Proof.
  intros (_ & Hin & _)%get_Inherited. revert Hin.
  apply (bool_decide_unpack _). vm_compute. exact I.
Qed.

(** [a.slice(-n)] holds the elements at the last [n] indices. *)
Lemma elem_of_slice_last {A} n (a : list A) x :
  x ∈ slice_last n a ↔ ∃ i, a !! i = Some x ∧ (length a ≤ i + n)%nat.
Proof.
  unfold slice_last. rewrite list_elem_of_lookup. split.
  - intros [j Hj]. rewrite lookup_drop in Hj.
    exists (length a - n + j)%nat. split; [done|]. lia.
  - intros (i & Hi & Hlen). exists (i - (length a - n))%nat.
    rewrite lookup_drop. rewrite <- Hi. f_equal.
    apply lookup_lt_Some in Hi. lia.
Qed.

(** [a.sort()] gives the one ascending arrangement of the elements. *)
Lemma sort_sorted a : Sorted String.le (sort a) ∧ sort a ≡ₚ a.
Proof.
  split; [apply (Sorted_merge_sort String.le)|apply merge_sort_Permutation].
Qed.

Lemma sort_unique a b : Sorted String.le b → b ≡ₚ a → b = sort a.
Proof.
  intros Hsorted Hperm. destruct (sort_sorted a) as [Hs Hp].
  apply (Sorted_unique String.le); [done..|]. by rewrite Hperm, Hp.
Qed.

(** ** The installation worker *)

(** C1.  The claim: when the installation fails, [ensure] catches the
    error, emits exactly one diagnostic naming the version and answers
    "unavailable".  The code does the first two and then goes on to the
    path selection.  Here the store is empty and the installer exits with
    code 1: the log ends with the one diagnostic, no ready marker is
    written, and the answer is the path of [typescript.js]. *)
Theorem ensure_answers_path_after_failed_install :
  let run :=
    CompilerModuleWorker.ensure Scenario.exits_1 Scenario.worker "5.4.2"
      Scenario.empty in
  run.1 = Ok (Some "/store/5.4.2/node_modules/typescript/lib/typescript.js") ∧
  log run.2 =
    [Dispatch (StoreInfo "5.4.2" "/store/5.4.2");
     Mkdir "/store/5.4.2" true;
     LockNew "/store/5.4.2" true;
     WriteFile "/store/5.4.2/package.json"
       (CompilerModuleWorker.getPackageJson "5.4.2") true;
     Spawn "npm"
       ["install"; "--ignore-scripts"; "--no-bin-links"; "--no-package-lock"]
       "/store/5.4.2";
     Child "/store/5.4.2" (ChildClose (Some 1) None);
     Dispatch (StoreError
       [Diagnostic.error ["Failed to install 'typescript@5.4.2'.";
                          "Process exited with code 1."]])] ∧
  fs run.2 !! "/store/5.4.2/__ready__" = None.
Proof. vm_compute. by repeat split. Qed.

(** C2.  The claim: a lock that [ensure] constructed is released before
    [ensure] returns, on the failure paths too.  The code releases it as
    the last statement of the [try] block only.  Here the installer is
    killed at its timeout: the lock was taken, the log has no release, and
    the path is still locked when [ensure] has returned. *)
Theorem ensure_keeps_lock_after_failed_install :
  let run :=
    CompilerModuleWorker.ensure Scenario.times_out Scenario.worker "5.2.0"
      Scenario.empty in
  run.1
  = Ok (Some "/store/5.2.0/node_modules/typescript/lib/tsserverlibrary.js") ∧
  log run.2 =
    [Dispatch (StoreInfo "5.2.0" "/store/5.2.0");
     Mkdir "/store/5.2.0" true;
     LockNew "/store/5.2.0" true;
     WriteFile "/store/5.2.0/package.json"
       (CompilerModuleWorker.getPackageJson "5.2.0") true;
     Spawn "npm"
       ["install"; "--ignore-scripts"; "--no-bin-links"; "--no-package-lock"]
       "/store/5.2.0";
     Child "/store/5.2.0" (ChildClose None (Some "SIGTERM"));
     Dispatch (StoreError
       [Diagnostic.error ["Failed to install 'typescript@5.2.0'.";
                          "Setup timeout of 30s was exceeded."]])] ∧
  (LockRelease "/store/5.2.0" ∉ log run.2) ∧
  "/store/5.2.0" ∈ locks run.2.
Proof.
  cbv zeta. split; [vm_compute; reflexivity|].
  match goal with
  | |- log ?w = ?events ∧ _ =>
      assert (log w = events) as Hlog by (vm_compute; reflexivity)
  end.
  split; [exact Hlog|]. split.
  - rewrite Hlog. in_log. intuition discriminate.
  - by_compute.
Qed.



(** C7.  With a callback to report to and on a path that nobody holds,
    [ensure] answers the path selected by the version: [typescript.js] for
    a version at or above 5.3.0, [tsserverlibrary.js] for one below, both
    below [node_modules/typescript/lib] of the installation path.  5.4.2
    selects the first and 5.2.0 the second. *)
Theorem ensure_selects_by_version_boundary env this compilerVersion w fn :
  CompilerModuleWorker.onDiagnostic this = Some fn →
  Path.join [CompilerModuleWorker.cachePath this; compilerVersion] ∉ locks w →
  let installationPath :=
    Path.join [CompilerModuleWorker.cachePath this; compilerVersion] in
  (CompilerModuleWorker.ensure env this compilerVersion w).1
  = Ok (Some
      (if Version.at_or_above (Version.components compilerVersion)
            [5; 3; 0]%N
       then installationPath +:+ "/node_modules/typescript/lib/typescript.js"
       else installationPath
            +:+ "/node_modules/typescript/lib/tsserverlibrary.js")) ∧
  Version.at_or_above (Version.components "5.4.2") [5; 3; 0]%N = true ∧
  Version.at_or_above (Version.components "5.2.0") [5; 3; 0]%N = false.
Proof.
  intros Hfn Hfree installationPath. split; [|by vm_compute].
  rewrite (ensure_unlocked env this compilerVersion w fn Hfn Hfree).
  unfold modulePath. by rewrite satisfies_5_3.
Qed.

Lemma ensure_selects_by_version_boundary_witness :
  (CompilerModuleWorker.onDiagnostic Scenario.worker = Some Scenario.report ∧
   ("/store/5.4.2" ∉ locks Scenario.empty) ∧
   ("/store/5.2.0" ∉ locks Scenario.empty)) ∧
  (CompilerModuleWorker.ensure Scenario.succeeds Scenario.worker "5.4.2"
     Scenario.empty).1
  = Ok (Some "/store/5.4.2/node_modules/typescript/lib/typescript.js") ∧
  (CompilerModuleWorker.ensure Scenario.succeeds Scenario.worker "5.2.0"
     Scenario.empty).1
  = Ok (Some "/store/5.2.0/node_modules/typescript/lib/tsserverlibrary.js").
Proof.
  assert ("/store/5.4.2" ∉ locks Scenario.empty) as H542 by by_compute.
  assert ("/store/5.2.0" ∉ locks Scenario.empty) as H520 by by_compute.
  split; [by repeat split|]. split.
  - exact (proj1 (ensure_selects_by_version_boundary Scenario.succeeds
                    Scenario.worker "5.4.2" Scenario.empty Scenario.report
                    eq_refl H542)).
  - exact (proj1 (ensure_selects_by_version_boundary Scenario.succeeds
                    Scenario.worker "5.2.0" Scenario.empty Scenario.report
                    eq_refl H520)).
Defined.

(** C8.  When the ready marker of a version exists and nobody holds its
    path, [ensure] answers the selected path and leaves the world as it
    was: no directory is created, no descriptor written, no lock taken, no
    installer spawned, nothing logged. *)
Theorem ensure_ready_skips_installation env this compilerVersion w :
  let p := Path.join [CompilerModuleWorker.cachePath this; compilerVersion] in
  p ∉ locks w →
  is_Some (fs w !! Path.join [p; "__ready__"]) →
  CompilerModuleWorker.ensure env this compilerVersion w
  = (Ok (Some (modulePath this compilerVersion)), w).
Proof.
  intros p0 Hunlocked Hmarker. subst p0.
  ensure_start env this compilerVersion w.
  - destruct (Hsame Hunlocked) as [-> ->]. rewrite World_with_nil.
    run. rewrite bool_decide_true by done. simpl.
    unfold modulePath. fold p.
    destruct (Version.satisfies _ _); by intros [= <- <-].
  - done.
  - done.
Qed.

Lemma ensure_ready_skips_installation_witness :
  ("/store/5.4.2" ∉ locks Scenario.installed) ∧
  is_Some (fs Scenario.installed !! "/store/5.4.2/__ready__") ∧
  CompilerModuleWorker.ensure Scenario.exits_1 Scenario.worker "5.4.2"
    Scenario.installed
  = (Ok (Some "/store/5.4.2/node_modules/typescript/lib/typescript.js"),
     Scenario.installed).
Proof.
  assert ("/store/5.4.2" ∉ locks Scenario.installed) as Hfree by by_compute.
  assert (is_Some (fs Scenario.installed !! "/store/5.4.2/__ready__"))
    as Hready by (exists (File (Text "")); vm_compute; reflexivity).
  split; [exact Hfree|]. split; [exact Hready|].
  exact (ensure_ready_skips_installation Scenario.exits_1 Scenario.worker
           "5.4.2" Scenario.installed Hfree Hready).
Defined.

(** ** The store service *)

Section Store.
Import ManifestWorker StoreService.
Context (env : Env).

(** [validateTag] on a tag that is neither a version nor a resolution
    key nor a name the resolutions object inherits: the answer is
    [false], and the warning goes out exactly when there is a "latest"
    resolution whose first three characters the tag starts with.  The age
    of the manifest plays no part. *)
Lemma validateTag_unknown this m tag w :
  manifest this = Some m →
  tag ∉ versions m →
  tag ∉ Object_keys (resolutions m) →
  tag ∉ Object_prototype →
  validateTag this tag w
  = (Ok false,
     match get (resolutions m) "latest" with
     | Some (Str latest) =>
         if String.prefix (substring 0 3 latest) tag
         then reported w (mayBeOutdated tag)
         else w
     | _ => w
     end).
Proof.
  intros Hm Hversion Hkey Hproto. unfold validateTag, includes, has.
  rewrite Hm. rewrite !bool_decide_false by done. simpl.
  destruct (get (resolutions m) "latest") as [[latest|name]|] eqn:Hlatest;
    [|by destruct (latest_not_inherited _ _ Hlatest)|done].
  unfold startsWith, slice_first. by destruct (String.prefix _ _).
Qed.

(** C3.  The claim: on an unknown tag [validateTag] warns only when the
    manifest is stale and the tag shares the major.minor prefix of
    "latest".  The code warns on the prefix alone.  Here the manifest was
    fetched this instant, "latest" is 5.4.2 and the tag is 5.4.9, which
    is no version and no key: the answer is [false] and the warning goes
    out. *)
Theorem validateTag_warns_on_fresh_manifest :
  isOutdated Scenario.succeeds Scenario.fresh 60 = false ∧
  get (resolutions Scenario.fresh) "latest" = Some (Str "5.4.2") ∧
  includes (versions Scenario.fresh) "5.4.9" = false ∧
  has (resolutions Scenario.fresh) "5.4.9" = false ∧
  validateTag (Scenario.opened Scenario.fresh) "5.4.9" Scenario.empty
  = (Ok false,
     {| fs := ∅; locks := ∅;
        log := [Dispatch (StoreError
          [Diagnostic.warning
             ["Failed to update metadata of the 'typescript' package from the registry.";
              "The resolution of the '5.4.9' tag may be outdated."]])] |}).
Proof. vm_compute. by repeat split. Qed.

(** C5.  The claim: [resolveTag] answers the tag itself when it is one
    of the versions, otherwise [resolutions[tag]] when the tag is a
    resolution key, otherwise [undefined].  The code reads
    [resolutions[tag]] without asking whether the key is the object's own.
    Here the manifest is open, "constructor" is no version and no key of
    the resolutions, and still the answer is not [undefined]: it is the
    member the resolutions object inherits under that name, and nothing
    is reported. *)
Theorem resolveTag_answers_inherited_member :
  manifest (Scenario.opened Scenario.fresh) = Some Scenario.fresh ∧
  includes (versions Scenario.fresh) "constructor" = false ∧
  includes (Object_keys (resolutions Scenario.fresh)) "constructor" = false ∧
  resolveTag Scenario.succeeds (Scenario.opened Scenario.fresh) "constructor"
    Scenario.empty
  = (Ok (Some (Inherited "constructor")), Scenario.empty).
Proof. vm_compute. by repeat split. Qed.

(** C6.  On a tag that is no version, [resolveTag] sends the one
    staleness warning when the manifest is older than 60 seconds and the
    tag is one of the last five resolution keys, and sends nothing in
    every other case; the answer is the resolution of the tag either
    way. *)
Theorem resolveTag_staleness_warning this m tag w :
  manifest this = Some m →
  tag ∉ versions m →
  let keys := Object_keys (resolutions m) in
  let stale := now env - lastFetched m > 60 in
  let recent :=
    ∃ i, keys !! i = Some tag ∧ (length keys ≤ i + 5)%nat in
  (stale ∧ recent →
   resolveTag env this tag w
   = (Ok (get (resolutions m) tag), reported w (mayBeOutdated tag))) ∧
  (¬ (stale ∧ recent) →
   resolveTag env this tag w = (Ok (get (resolutions m) tag), w)).
Proof.
  intros Hm Hversion keys stale recent.
  unfold resolveTag, includes, isOutdated. rewrite Hm.
  rewrite (bool_decide_false (tag ∈ versions m)) by done.
  fold keys. fold stale.
  assert (tag ∈ slice_last 5 keys ↔ recent) as Hrecent
    by apply elem_of_slice_last.
  split; intros H.
  - destruct H as [Hstale Hr].
    rewrite !bool_decide_true by tauto. reflexivity.
  - destruct (decide stale) as [Hstale|Hfresh].
    + rewrite (bool_decide_false (tag ∈ slice_last 5 keys)) by tauto.
      by rewrite andb_false_r.
    + by rewrite (bool_decide_false stale).
Qed.

(** C9.  Before the manifest is open, [resolveTag], [validateTag],
    [install] and [update] each send the one "not open" diagnostic and
    return normally: nothing, [false], nothing, and the service as it
    was. *)
Theorem not_open_is_reported this tag w :
  manifest this = None →
  resolveTag env this tag w = (Ok None, reported w notOpen) ∧
  validateTag this tag w = (Ok false, reported w notOpen) ∧
  install env this tag w = (Ok (None, this), reported w notOpen) ∧
  update this w = (Ok this, reported w notOpen).
Proof.
  intros Hm. unfold resolveTag, validateTag, install, update.
  by rewrite Hm.
Qed.

(** C10.  On an open manifest [supportedTags] answers the resolution keys
    and the versions, every one of them, in ascending order, and sends
    nothing; before that it sends the "not open" diagnostic and answers
    the empty list. *)
Theorem supportedTags_sorted this w :
  match manifest this with
  | Some m =>
      ∃ tags,
        supportedTags this w = (Ok tags, w) ∧
        Sorted String.le tags ∧
        tags ≡ₚ Object_keys (resolutions m) ++ versions m
  | None => supportedTags this w = (Ok [], reported w notOpen)
  end.
Proof.
  unfold supportedTags. destruct (manifest this) as [m|]; [|done].
  eexists. split; [reflexivity|]. apply sort_sorted.
Qed.
End Store.

Lemma resolveTag_staleness_warning_witness :
  (StoreService.manifest (Scenario.opened Scenario.stale)
   = Some Scenario.stale ∧
   ("latest" ∉ ManifestWorker.versions Scenario.stale) ∧
   now Scenario.succeeds - ManifestWorker.lastFetched Scenario.stale > 60) ∧
  StoreService.resolveTag Scenario.succeeds (Scenario.opened Scenario.stale)
    "latest" Scenario.empty
  = (Ok (Some (Str "5.4.2")),
     reported Scenario.empty (StoreService.mayBeOutdated "latest")).
Proof.
  assert ("latest" ∉ ManifestWorker.versions Scenario.stale) as Hversion
    by by_compute.
  assert (now Scenario.succeeds - ManifestWorker.lastFetched Scenario.stale
          > 60) as Hstale by (vm_compute; reflexivity).
  split; [by repeat split|].
  apply (resolveTag_staleness_warning Scenario.succeeds
           (Scenario.opened Scenario.stale) Scenario.stale "latest"
           Scenario.empty eq_refl Hversion).
  split; [exact Hstale|].
  exists 6%nat. split; [reflexivity|]. vm_compute. lia.
Defined.

Lemma not_open_is_reported_witness :
  StoreService.manifest Scenario.closed = None ∧
  StoreService.install Scenario.succeeds Scenario.closed "latest"
    Scenario.empty
  = (Ok (None, Scenario.closed),
     reported Scenario.empty StoreService.notOpen).
Proof.
  split; [reflexivity|].
  apply (not_open_is_reported Scenario.succeeds Scenario.closed "latest"
           Scenario.empty eq_refl).
Defined.

(** ** More on the installation worker *)

(** X1.  What [#installPackage] does in a directory: it spawns npm with
    the four arguments, and the child's first event decides the promise.
    An [error] event rejects with that error; a [close] with exit code 0
    resolves, signal or not; any other [close] rejects, with the timeout
    message when there is a signal and with the exit code otherwise.
    Events after the first change nothing. *)
Theorem installPackage_outcome env this cwd w :
  CompilerModuleWorker.installPackage env this cwd w
  = (match (npm env cwd).1 with
     | ChildError e => Throw e
     | ChildClose code signal =>
         if bool_decide (code = Some 0) then Ok tt
         else if bool_decide (signal ≠ None) then
           Throw (JsError ("Setup timeout of "
                           +:+ pretty (CompilerModuleWorker.timeout this / 1000)
                           +:+ "s was exceeded."))
         else
           Throw (JsError ("Process exited with code "
                           +:+ CompilerModuleWorker.String_of_code code
                           +:+ "."))
     end,
     World_with w (locks w)
       [Spawn "npm"
          ["install"; "--ignore-scripts"; "--no-bin-links";
           "--no-package-lock"] cwd;
        Child cwd (npm env cwd).1]).
Proof.
  unfold CompilerModuleWorker.installPackage, CompilerModuleWorker.settled.
  destruct (npm env cwd) as [[e|code signal] rest]; simpl.
  - rewrite fold_handle_settled. run. unfold World_with. simpl.
    by rewrite <- app_assoc.
  - unfold CompilerModuleWorker.on_close, CompilerModuleWorker.resolve,
      CompilerModuleWorker.reject, CompilerModuleWorker.settle.
    repeat case_bool_decide; rewrite fold_handle_settled; run;
      unfold World_with; simpl; by rewrite <- app_assoc.
Qed.

Lemma release_acquired (p : string) (held : gset string) :
  p ∉ held → ({[p]} ∪ held) ∖ {[p]} = held.
Proof.
  intros Hp. apply set_eq. intros x.
  rewrite elem_of_difference, elem_of_union, elem_of_singleton.
  split; [tauto|]. intros Hx. split; [tauto|]. by intros ->.
Qed.

(** X2.  An installation that nothing stops: on a free path without a
    ready marker, [ensure] answers the selected path; afterwards the
    installation path is there (a directory, unless something else was
    there before), the descriptor holds the package description of the
    version, the ready marker is there and empty, the locks are as they
    were, and the call has done exactly these eight things, in this
    order. *)
Theorem ensure_installs env this compilerVersion w :
  let p := Path.join [CompilerModuleWorker.cachePath this; compilerVersion] in
  let descriptor := Path.join [p; "package.json"] in
  let ready := Path.join [p; "__ready__"] in
  p ∉ locks w →
  fs w !! ready = None →
  first_failure env this compilerVersion = None →
  let run := CompilerModuleWorker.ensure env this compilerVersion w in
  run.1 = Ok (Some (modulePath this compilerVersion)) ∧
  fs run.2 !! p = Some (default Dir (fs w !! p)) ∧
  fs run.2 !! descriptor
  = Some (File (CompilerModuleWorker.getPackageJson compilerVersion)) ∧
  fs run.2 !! ready = Some (File (Text "")) ∧
  locks run.2 = locks w ∧
  log run.2
  = log w ++
    [Dispatch (StoreInfo compilerVersion p);
     Mkdir p true;
     LockNew p true;
     WriteFile descriptor
       (CompilerModuleWorker.getPackageJson compilerVersion) true;
     Spawn "npm"
       ["install"; "--ignore-scripts"; "--no-bin-links";
        "--no-package-lock"] p;
     Child p (npm env p).1;
     WriteFile ready (Text "") true;
     LockRelease p].
Proof.
  intros p0 descriptor ready Hunlocked Hnone Hfail run.
  subst run p0 descriptor ready. unfold first_failure in *.
  revert Hnone Hfail. cbv zeta.
  ensure_start env this compilerVersion w; [|done..].
  destruct (Hsame Hunlocked) as [-> ->].
  ensure_cases; intros Hnone Hfail; try done.
  1,2: rewrite Hnone in Hready; by destruct Hready.
  all: unfold modulePath; fold p; rewrite Hversion.
  all: split; [done|]; split; [|split; [|split; [|split; [|done]]]].
  all: try (by rewrite release_acquired).
  1,4: rewrite !lookup_insert_ne by apply join_ne_parent;
    destruct (fs w !! p) as [node|] eqn:Hp; simpl; [done|];
    apply lookup_insert_eq.
  1,3: rewrite lookup_insert_ne by (apply not_eq_sym, package_json_ne_ready);
    apply lookup_insert_eq.
  all: apply lookup_insert_eq.
Qed.

Lemma ensure_installs_witness :
  ("/store/5.4.2" ∉ locks Scenario.empty) ∧
  fs Scenario.empty !! "/store/5.4.2/__ready__" = None ∧
  first_failure Scenario.succeeds Scenario.worker "5.4.2" = None ∧
  (CompilerModuleWorker.ensure Scenario.succeeds Scenario.worker "5.4.2"
     Scenario.empty).1
  = Ok (Some "/store/5.4.2/node_modules/typescript/lib/typescript.js") ∧
  fs (CompilerModuleWorker.ensure Scenario.succeeds Scenario.worker "5.4.2"
        Scenario.empty).2 !! "/store/5.4.2/__ready__"
  = Some (File (Text "")).
Proof.
  assert ("/store/5.4.2" ∉ locks Scenario.empty) as Hfree by by_compute.
  assert (fs Scenario.empty !! "/store/5.4.2/__ready__" = None) as Hnone
    by (vm_compute; reflexivity).
  assert (first_failure Scenario.succeeds Scenario.worker "5.4.2" = None)
    as Hfail by (vm_compute; reflexivity).
  split; [exact Hfree|]. split; [exact Hnone|]. split; [exact Hfail|].
  pose proof (ensure_installs Scenario.succeeds Scenario.worker "5.4.2"
                Scenario.empty Hfree Hnone Hfail)
    as (Hanswer & _ & _ & Hmarker & _).
  split; [exact Hanswer|exact Hmarker].
Defined.

(** X3.  An installation that stops at an error, on a free path without a
    ready marker and with a callback: [ensure] still answers the selected
    path; after the [store:info] event it makes system calls only and then
    calls the callback once, with the diagnostic made from the error it
    stopped at; it releases no lock and writes no ready marker; and the
    path is left locked exactly when the directory could be made. *)
Theorem ensure_failed_install env this compilerVersion w callback failure :
  let p := Path.join [CompilerModuleWorker.cachePath this; compilerVersion] in
  let ready := Path.join [p; "__ready__"] in
  p ∉ locks w →
  fs w !! ready = None →
  CompilerModuleWorker.onDiagnostic this = Some callback →
  first_failure env this compilerVersion = Some failure →
  let run := CompilerModuleWorker.ensure env this compilerVersion w in
  run.1 = Ok (Some (modulePath this compilerVersion)) ∧
  (∃ calls,
     log run.2
     = log w ++
       Dispatch (StoreInfo compilerVersion p) :: calls ++
       [Dispatch
          (callback
             (Diagnostic.fromError
                (CompilerModuleWorker.failedToInstall compilerVersion)
                failure))] ∧
     Forall (λ c, ∀ d, c ≠ Dispatch d) calls ∧
     (LockRelease p ∉ calls)) ∧
  fs run.2 !! ready = None ∧
  (p ∈ locks run.2 ↔ mkdir_error env p = None).
Proof.
  intros p0 ready Hunlocked Hnone Hcallback Hfail run.
  subst p0 ready run. unfold first_failure in *.
  revert Hnone Hfail. cbv zeta.
  ensure_start env this compilerVersion w; [|done..].
  destruct (Hsame Hunlocked) as [-> ->].
  ensure_cases; intros Hnone Hfail; simplify_eq.
  1,2: rewrite Hnone in Hready; by destruct Hready.
  all: unfold modulePath; fold p; rewrite Hversion.
  all: split; [done|].
  all: split;
    [match goal with
     | |- ∃ calls, _ ++ (_ :: ?rest) = _ ∧ _ => exists (removelast rest)
     end; simpl;
     split; [done|]; split;
     [repeat (constructor; [done|]); constructor
     |in_log; intuition discriminate]|].
  all: split;
    [first [ done
           | by apply lookup_ready_mkdir
           | by apply lookup_ready_descriptor ]|].
  all: rewrite ?elem_of_union, ?elem_of_singleton; split; try done; tauto.
Qed.

Lemma ensure_failed_install_witness :
  ("/store/5.4.2" ∉ locks Scenario.empty) ∧
  fs Scenario.empty !! "/store/5.4.2/__ready__" = None ∧
  first_failure Scenario.exits_1 Scenario.worker "5.4.2"
  = Some (JsError "Process exited with code 1.") ∧
  "/store/5.4.2"
  ∈ locks (CompilerModuleWorker.ensure Scenario.exits_1 Scenario.worker
             "5.4.2" Scenario.empty).2.
Proof.
  assert ("/store/5.4.2" ∉ locks Scenario.empty) as Hfree by by_compute.
  assert (fs Scenario.empty !! "/store/5.4.2/__ready__" = None) as Hnone
    by (vm_compute; reflexivity).
  assert (first_failure Scenario.exits_1 Scenario.worker "5.4.2"
          = Some (JsError "Process exited with code 1.")) as Hfail
    by (vm_compute; reflexivity).
  split; [exact Hfree|]. split; [exact Hnone|]. split; [exact Hfail|].
  apply (ensure_failed_install Scenario.exits_1 Scenario.worker "5.4.2"
           Scenario.empty Scenario.report _ Hfree Hnone eq_refl Hfail).
  reflexivity.
Defined.




Section Frames.
Context (p : string).

Lemma touches_only_refl w : touches_only p w w.
Proof. split; [exists []; by rewrite app_nil_r|done]. Qed.

Lemma touches_only_trans w1 w2 w3 :
  touches_only p w1 w2 → touches_only p w2 w3 → touches_only p w1 w3.
Proof.
  intros ([l1 Hl1] & Hk1) ([l2 Hl2] & Hk2). split.
  - exists (l1 ++ l2). by rewrite Hl2, Hl1, app_assoc.
  - intros q Hq. by rewrite Hk2, Hk1.
Qed.

Lemma frames_ret {A} (a : A) : frames p (ret a).
Proof. intros w. apply touches_only_refl. Qed.

Lemma frames_throw {A} e : frames p (@throw A e).
Proof. intros w. apply touches_only_refl. Qed.

Lemma frames_bind {A B} (m : M A) (k : A → M B) :
  frames p m → (∀ a, frames p (k a)) → frames p (bind m k).
Proof.
  intros Hm Hk w. unfold bind. specialize (Hm w).
  destruct (m w) as [[a|e] w1]; [|done].
  eapply touches_only_trans; [exact Hm|apply Hk].
Qed.

(** The continuation may rely on what the first computation returns. *)
Lemma frames_bind_result {A B} (Q : A → Prop) (m : M A) (k : A → M B) :
  frames p m → (∀ w a, (m w).1 = Ok a → Q a) →
  (∀ a, Q a → frames p (k a)) →
  frames p (bind m k).
Proof.
  intros Hm HQ Hk w. unfold bind. specialize (Hm w). specialize (HQ w).
  destruct (m w) as [[a|e] w1]; [|done].
  eapply touches_only_trans; [exact Hm|]. by apply Hk, HQ.
Qed.

Lemma frames_try_catch {A} (m : M A) (h : Error → M A) :
  frames p m → (∀ e, frames p (h e)) → frames p (try_catch m h).
Proof.
  intros Hm Hh w. unfold try_catch. specialize (Hm w).
  destruct (m w) as [[a|e] w1]; [done|].
  eapply touches_only_trans; [exact Hm|apply Hh].
Qed.

Lemma frames_emit e : frames p (emit e).
Proof. intros w. split; [by exists [e]|done]. Qed.

Lemma frames_call callee f d : frames p (call callee f d).
Proof. destruct f; [apply frames_emit|apply frames_throw]. Qed.

Lemma frames_release : frames p (set_locks (λ l, l ∖ {[p]})).
Proof.
  intros w. split; [exists []; by rewrite app_nil_r|].
  intros q Hq. simpl. rewrite elem_of_difference, elem_of_singleton. tauto.
Qed.

Lemma frames_acquire : frames p (set_locks (λ l, {[p]} ∪ l)).
Proof.
  intros w. split; [exists []; by rewrite app_nil_r|].
  intros q Hq. simpl. rewrite elem_of_union, elem_of_singleton. tauto.
Qed.

Lemma frames_set_fs (g : gmap string Node → gmap string Node) :
  frames p (set_fs g).
Proof. intros w. split; [exists []; by rewrite app_nil_r|done]. Qed.

Lemma frames_writeFile env path content :
  frames p (writeFile env path content).
Proof.
  unfold writeFile. destruct (writeFile_error env path).
  - apply frames_bind; [apply frames_emit|]. intros _. apply frames_throw.
  - apply frames_bind; [apply frames_emit|]. intros _. apply frames_set_fs.
Qed.

Lemma frames_poll observations : frames p (Lock.poll p observations).
Proof.
  induction observations as [|present later IH]; [apply frames_ret|].
  simpl. apply frames_bind; [apply frames_emit|]. intros _.
  destruct present; [done|].
  apply frames_bind; [apply frames_release|]. intros _. apply frames_ret.
Qed.
End Frames.

(** X5.  Whatever happens, a call of [ensure] for a version only adds to
    the log and leaves every lock but that of the version's installation
    path as it was: an installation neither takes nor frees the lock of
    another version. *)
Theorem ensure_touches_only env this compilerVersion w :
  let p := Path.join [CompilerModuleWorker.cachePath this; compilerVersion] in
  let w' := (CompilerModuleWorker.ensure env this compilerVersion w).2 in
  (∃ new, log w' = log w ++ new) ∧
  (∀ q, q ≠ p → q ∈ locks w' ↔ q ∈ locks w).
Proof.
  intros p. revert w.
  change (frames p (CompilerModuleWorker.ensure env this compilerVersion)).
  unfold CompilerModuleWorker.ensure. cbv zeta. fold p.
  change CompilerModuleWorker.readyFileName with "__ready__".
  apply frames_bind.
  { intros w. unfold Lock.isLocked.
    case_bool_decide; [|apply touches_only_refl].
    apply frames_bind; [apply frames_poll|]. intros [|]; [|apply frames_ret].
    apply frames_bind; [apply frames_call|]. intros _. apply frames_ret. }
  intros [|]; [apply frames_ret|].
  apply frames_bind; [intros w; apply touches_only_refl|]. intros marked.
  apply frames_bind;
    [|intros _; destruct (Version.satisfies _ _); apply frames_ret].
  destruct marked; simpl; [apply frames_ret|].
  apply frames_bind; [apply frames_emit|]. intros _.
  apply frames_try_catch; [|intros e; apply frames_call].
  apply frames_bind.
  { unfold mkdir. destruct (mkdir_error env p).
    - apply frames_bind; [apply frames_emit|]. intros _. apply frames_throw.
    - apply frames_bind; [apply frames_emit|]. intros _.
      apply frames_set_fs. }
  intros _. apply (frames_bind_result _ (λ lock, Lock.path lock = p)).
  { intros w. unfold Lock.new. case_bool_decide.
    - apply frames_bind; [apply frames_emit|]. intros _. apply frames_throw.
    - apply frames_bind; [apply frames_emit|]. intros _.
      apply frames_bind; [apply frames_acquire|]. intros _. apply frames_ret. }
  { intros w lock. unfold Lock.new. case_bool_decide; [done|].
    by intros [= <-]. }
  intros lock Hlock.
  apply frames_bind; [apply frames_writeFile|]. intros _.
  apply frames_bind.
  { unfold CompilerModuleWorker.installPackage.
    apply frames_bind; [apply frames_emit|]. intros _.
    apply frames_bind; [apply frames_emit|]. intros _.
    destruct (CompilerModuleWorker.settled _ _);
      [apply frames_ret|apply frames_throw]. }
  intros _. apply frames_bind; [apply frames_writeFile|]. intros _.
  unfold Lock.release. rewrite Hlock.
  apply frames_bind; [apply frames_emit|]. intros _. apply frames_release.
Qed.

Lemma ensure_touches_only_witness :
  "/store/5.4.2" ≠ "/store/5.2.0" ∧
  "/store/5.4.2"
  ∈ locks (CompilerModuleWorker.ensure Scenario.exits_1 Scenario.worker
             "5.2.0" Cases.held).2.
Proof.
  assert ("/store/5.4.2" ≠ "/store/5.2.0") as Hother by discriminate.
  split; [exact Hother|].
  apply (proj2 (ensure_touches_only Scenario.exits_1 Scenario.worker
                  "5.2.0" Cases.held) "/store/5.4.2" Hother).
  by_compute.
Defined.

(** With the marker there and the path free, [ensure] changes nothing. *)
Lemma ensure_marked env this compilerVersion w :
  Path.join [CompilerModuleWorker.cachePath this; compilerVersion] ∉ locks w →
  is_Some
    (fs w !! Path.join
       [Path.join [CompilerModuleWorker.cachePath this; compilerVersion];
        "__ready__"]) →
  CompilerModuleWorker.ensure env this compilerVersion w
  = (Ok (Some (modulePath this compilerVersion)), w).
Proof.
  intros Hunlocked Hmarker.
  ensure_start env this compilerVersion w; [|done..].
  destruct (Hsame Hunlocked) as [-> ->]. rewrite World_with_nil.
  run. rewrite bool_decide_true by done. simpl.
  unfold modulePath. fold p.
  destruct (Version.satisfies _ _); by intros [= <- <-].
Qed.

(** X6.  Once is enough: after a call of [ensure] on a free path that
    nothing stopped, a second call for the same version answers the same
    path and changes nothing, whatever the installer or the file system
    would do this time. *)
Theorem ensure_twice env env' this compilerVersion w :
  Path.join [CompilerModuleWorker.cachePath this; compilerVersion] ∉ locks w →
  first_failure env this compilerVersion = None →
  let first := CompilerModuleWorker.ensure env this compilerVersion w in
  first.1 = Ok (Some (modulePath this compilerVersion)) ∧
  CompilerModuleWorker.ensure env' this compilerVersion first.2
  = (first.1, first.2).
Proof.
  intros Hunlocked Hfail first. subst first.
  pose proof (ensure_marked env' this compilerVersion) as Hsecond.
  remember (CompilerModuleWorker.ensure env' this compilerVersion)
    as second eqn:Hs. clear Hs.
  unfold first_failure in *. revert Hfail. cbv zeta.
  ensure_start env this compilerVersion w; [|done..].
  destruct (Hsame Hunlocked) as [-> ->].
  ensure_cases; intros Hfail; try done.
  all: unfold modulePath in *; fold p in Hsecond; fold p;
    rewrite Hversion in *; split; [done|].
  all: apply Hsecond; simpl.
  all: try (rewrite !app_nil_r; done).
  all: try (rewrite elem_of_difference, elem_of_singleton; tauto).
  all: try (rewrite lookup_insert_eq; by eexists).
  all: rewrite ?app_nil_r; done.
Qed.

Lemma ensure_twice_witness :
  ("/store/5.4.2" ∉ locks Scenario.empty) ∧
  first_failure Scenario.succeeds Scenario.worker "5.4.2" = None ∧
  let first :=
    CompilerModuleWorker.ensure Scenario.succeeds Scenario.worker "5.4.2"
      Scenario.empty in
  CompilerModuleWorker.ensure Scenario.exits_1 Scenario.worker "5.4.2" first.2
  = (first.1, first.2).
Proof.
  assert ("/store/5.4.2" ∉ locks Scenario.empty) as Hfree by by_compute.
  assert (first_failure Scenario.succeeds Scenario.worker "5.4.2" = None)
    as Hfail by (vm_compute; reflexivity).
  split; [exact Hfree|]. split; [exact Hfail|].
  exact (proj2 (ensure_twice Scenario.succeeds Scenario.exits_1
                  Scenario.worker "5.4.2" Scenario.empty Hfree Hfail)).
Defined.

(** ** More on the store service *)

Lemma slice_last_subseteq {A} n (a : list A) x : x ∈ slice_last n a → x ∈ a.
Proof.
  intros (i & Hi & _)%elem_of_slice_last. by eapply list_elem_of_lookup_2.
Qed.

Section StoreMore.
Import ManifestWorker StoreService.
Context (env : Env).

Lemma validateTag_result this m tag w :
  manifest this = Some m →
  (validateTag this tag w).1
  = Ok (bool_decide (tag ∈ versions m ∨ tag ∈ Object_keys (resolutions m)
                     ∨ tag ∈ Object_prototype)).
Proof.
  intros Hm. unfold validateTag, includes, has. rewrite Hm.
  destruct (decide (tag ∈ versions m)) as [Hv|Hv].
  { rewrite (bool_decide_true (tag ∈ versions m)) by done.
    by rewrite (bool_decide_true (_ ∨ _)) by tauto. }
  rewrite (bool_decide_false (tag ∈ versions m)) by done.
  destruct (decide (tag ∈ Object_keys (resolutions m))) as [Hk|Hk].
  { rewrite (bool_decide_true (tag ∈ Object_keys _)) by done.
    by rewrite (bool_decide_true (_ ∨ _)) by tauto. }
  rewrite (bool_decide_false (tag ∈ Object_keys _)) by done.
  destruct (decide (tag ∈ Object_prototype)) as [Hp|Hp].
  { rewrite (bool_decide_true (tag ∈ Object_prototype)) by done.
    by rewrite (bool_decide_true (_ ∨ _)) by tauto. }
  rewrite (bool_decide_false (tag ∈ Object_prototype)) by done.
  rewrite (bool_decide_false (_ ∨ _)) by tauto. simpl.
  destruct (get (resolutions m) "latest") as [[latest|name]|] eqn:Hlatest;
    [|by destruct (latest_not_inherited _ _ Hlatest)|done].
  by destruct (startsWith _ _).
Qed.

Lemma resolveTag_result this m tag w :
  manifest this = Some m →
  (resolveTag env this tag w).1
  = Ok (if bool_decide (tag ∈ versions m) then Some (Str tag)
        else get (resolutions m) tag).
Proof.
  intros Hm. unfold resolveTag, includes. rewrite Hm.
  case_bool_decide; [done|]. unfold bind. by destruct (_ && _).
Qed.

(** X7.  On an open manifest [validateTag] answers [true] exactly for the
    versions, the resolution keys and the names the resolutions object
    inherits, and then it sends nothing and changes nothing. *)
Theorem validateTag_accepts this m tag w :
  manifest this = Some m →
  let known :=
    tag ∈ versions m ∨ tag ∈ Object_keys (resolutions m)
    ∨ tag ∈ Object_prototype in
  ((validateTag this tag w).1 = Ok true ↔ known) ∧
  (known → validateTag this tag w = (Ok true, w)).
Proof.
  intros Hm known. split.
  - rewrite (validateTag_result this m tag w Hm). fold known.
    case_bool_decide; split; done.
  - intros Hknown. unfold validateTag, includes, has. rewrite Hm.
    destruct Hknown as [Hv|[Hk|Hp]].
    + by rewrite (bool_decide_true (tag ∈ versions m)) by done.
    + rewrite (bool_decide_true (tag ∈ Object_keys _)) by done.
      by rewrite orb_true_r.
    + rewrite (bool_decide_true (tag ∈ Object_prototype)) by done.
      by rewrite !orb_true_r.
Qed.

(** X8.  [validateTag] and [resolveTag] agree: on an open manifest a tag
    is valid exactly when it resolves to a version (to something other
    than [undefined], that is), in whatever worlds the two are called. *)
Theorem validateTag_iff_resolveTag this m tag w w0 :
  manifest this = Some m →
  (validateTag this tag w).1 = Ok true ↔
  ∃ version, (resolveTag env this tag w0).1 = Ok (Some version).
Proof.
  intros Hm. rewrite (validateTag_result this m tag w Hm).
  rewrite (resolveTag_result this m tag w0 Hm).
  case_bool_decide as Hknown; case_bool_decide as Hv; split.
  - by exists (Str tag).
  - done.
  - intros _. destruct Hknown as [|Hk]; [done|].
    apply get_is_Some in Hk as [v Hk]. exists v. by rewrite Hk.
  - done.
  - done.
  - intros _. destruct Hknown. by left.
  - done.
  - intros [v [= Hget]]. destruct Hknown. right.
    apply get_is_Some. by exists v.
Qed.


(** X10.  [install] on a tag that is no version, no resolution key and no
    name the resolutions object inherits, the manifest open: it sends the
    one "Cannot add" diagnostic for the tag and answers nothing; the
    worker is not called and the service stays as it was. *)
Theorem install_unresolvable this m tag w :
  manifest this = Some m →
  tag ∉ versions m →
  tag ∉ Object_keys (resolutions m) →
  tag ∉ Object_prototype →
  install env this tag w
  = (Ok (None, this),
     reported w
       (Diagnostic.error
          ["Cannot add the 'typescript' package for the '" +:+ tag
           +:+ "' tag."])).
Proof.
  intros Hm Hv Hk Hp. unfold install, resolveTag, includes. rewrite Hm.
  rewrite (bool_decide_false (tag ∈ versions m)) by done.
  rewrite (bool_decide_false (tag ∈ slice_last _ _))
    by (intros ?%slice_last_subseteq; done).
  rewrite andb_false_r, (get_None _ _ Hk Hp). reflexivity.
Qed.

(** X11.  [install] never throws, open or not, whatever the worker does:
    what [ensure] throws is caught and reported. *)
Theorem install_never_throws this tag w :
  ∃ answer this' w', install env this tag w = (Ok (answer, this'), w').
Proof.
  unfold install. destruct (manifest this) as [m|] eqn:Hm; [|by eexists _, _, _].
  unfold bind at 1.
  pose proof (resolveTag_result this m tag w Hm) as Hr.
  destruct (resolveTag env this tag w) as [r w1]. simpl in Hr. subst r.
  destruct (if bool_decide _ then _ else _) as [[version|name]|];
    [| |by eexists _, _, _].
  - unfold bind, try_catch.
    destruct (CompilerModuleWorker.ensure _ _ _ _) as [[[path|]|e] w2];
      by eexists _, _, _.
  - by eexists _, _, _.
Qed.


(** X13.  A failed installation seen through the service.  The service
    makes its worker without a callback, so when the installation stops at
    an error the worker's attempt to report it throws a [TypeError];
    [install] catches that, sends one "Failed to install" diagnostic made
    from the [TypeError], and answers nothing, the service unchanged. *)
Theorem install_failed_install this m tag version failure w w1 :
  manifest this = Some m →
  CompilerModuleWorker.onDiagnostic (compilerModuleWorker this) = None →
  resolveTag env this tag w = (Ok (Some (Str version)), w1) →
  let worker := compilerModuleWorker this in
  let p := Path.join [CompilerModuleWorker.cachePath worker; version] in
  p ∉ locks w1 →
  fs w1 !! Path.join [p; "__ready__"] = None →
  first_failure env worker version = Some failure →
  ∃ message calls w',
    install env this tag w = (Ok (None, this), w') ∧
    log w'
    = log w1 ++
      Dispatch (StoreInfo version p) :: calls ++
      [Dispatch
         (StoreError
            [Diagnostic.fromError
               (CompilerModuleWorker.failedToInstall version)
               (TypeError message)])] ∧
    Forall (λ c, ∀ d, c ≠ Dispatch d) calls.
Proof.
  intros Hm Hcallback Hresolve worker p0 Hunlocked Hnone Hfail.
  subst p0 worker. unfold install. rewrite Hm. unfold bind at 1.
  rewrite Hresolve.
  unfold bind at 1, try_catch.
  unfold first_failure in Hfail. revert Hnone Hfail. cbv zeta.
  ensure_start env (compilerModuleWorker this) version w1; [|done..].
  destruct (Hsame Hunlocked) as [-> ->].
  ensure_cases; intros Hnone Hfail; simplify_eq.
  1,2: rewrite Hnone in Hready; by destruct Hready.
  all: run; rewrite <- ?app_assoc; simpl.
  all: eexists _;
    match goal with
    | |- ∃ calls w', (_, {| log := _ ++ (_ :: ?rest) |}) = _ ∧ _ =>
        exists (removelast rest)
    end; simpl; eexists; split; [reflexivity|]; simpl; split; [done|].
  all: repeat (constructor; [done|]); constructor.
Qed.

(** X20.  What [resolveTag] answers on an open manifest, case by case: the
    tag itself when it is one of the versions; otherwise the value the
    resolutions hold for it when it is a resolution key; otherwise the
    inherited member when the tag is a name the resolutions object
    inherits; otherwise nothing. *)
Theorem resolveTag_answer this m tag w :
  manifest this = Some m →
  let answer := (resolveTag env this tag w).1 in
  (tag ∈ versions m → answer = Ok (Some (Str tag))) ∧
  (tag ∉ versions m → tag ∈ Object_keys (resolutions m) →
   ∃ version,
     (tag, version) ∈ resolutions m ∧
     get (resolutions m) tag = Some (Str version) ∧
     answer = Ok (Some (Str version))) ∧
  (tag ∉ versions m → tag ∉ Object_keys (resolutions m) →
   tag ∈ Object_prototype → answer = Ok (Some (Inherited tag))) ∧
  (tag ∉ versions m → tag ∉ Object_keys (resolutions m) →
   tag ∉ Object_prototype → answer = Ok None).
Proof.
  intros Hm answer. subst answer. rewrite (resolveTag_result this m tag w Hm).
  case_bool_decide as Hversion.
  - repeat split; intros; done.
  - split; [done|]. split; [|split].
    + intros _ Hkey. destruct (get_Some _ _ Hkey) as (v & Hget & Hin).
      exists v. by rewrite Hget.
    + intros _ Hkey Hproto. by rewrite (get_inherited _ _ Hkey Hproto).
    + intros _ Hkey Hproto. by rewrite (get_None _ _ Hkey Hproto).
Qed.
End StoreMore.

Lemma resolveTag_answer_witness :
  StoreService.manifest (Scenario.opened Scenario.fresh)
  = Some Scenario.fresh ∧
  (StoreService.resolveTag Scenario.succeeds (Scenario.opened Scenario.fresh)
     "5.3.3" Scenario.empty).1 = Ok (Some (Str "5.3.3")) ∧
  (StoreService.resolveTag Scenario.succeeds (Scenario.opened Scenario.fresh)
     "valueOf" Scenario.empty).1 = Ok (Some (Inherited "valueOf")) ∧
  (StoreService.resolveTag Scenario.succeeds (Scenario.opened Scenario.fresh)
     "nightly" Scenario.empty).1 = Ok None.
Proof.
  pose proof (resolveTag_answer Scenario.succeeds
                (Scenario.opened Scenario.fresh) Scenario.fresh) as H.
  split; [reflexivity|]. split; [|split].
  - apply (H "5.3.3" Scenario.empty eq_refl). by_compute.
  - apply (H "valueOf" Scenario.empty eq_refl); by_compute.
  - apply (H "nightly" Scenario.empty eq_refl); by_compute.
Defined.

Lemma validateTag_accepts_witness :
  StoreService.manifest (Scenario.opened Scenario.fresh)
  = Some Scenario.fresh ∧
  ("toString" ∈ ManifestWorker.versions Scenario.fresh ∨
   "toString" ∈ Object_keys (ManifestWorker.resolutions Scenario.fresh) ∨
   "toString" ∈ Object_prototype) ∧
  StoreService.validateTag (Scenario.opened Scenario.fresh) "toString"
    Scenario.empty
  = (Ok true, Scenario.empty).
Proof.
  assert ("toString" ∈ ManifestWorker.versions Scenario.fresh ∨
          "toString" ∈ Object_keys (ManifestWorker.resolutions Scenario.fresh) ∨
          "toString" ∈ Object_prototype)
    as Hknown by by_compute.
  split; [reflexivity|]. split; [exact Hknown|].
  exact (proj2 (validateTag_accepts (Scenario.opened Scenario.fresh)
                  Scenario.fresh "toString" Scenario.empty eq_refl) Hknown).
Defined.

Lemma validateTag_iff_resolveTag_witness :
  StoreService.manifest (Scenario.opened Scenario.stale)
  = Some Scenario.stale ∧
  (StoreService.validateTag (Scenario.opened Scenario.stale) "rc"
     Scenario.empty).1 = Ok true ∧
  ∃ version,
    (StoreService.resolveTag Scenario.succeeds (Scenario.opened Scenario.stale)
       "rc" Scenario.installed).1 = Ok (Some version).
Proof.
  assert ((StoreService.validateTag (Scenario.opened Scenario.stale) "rc"
             Scenario.empty).1 = Ok true) as Hvalid
    by (vm_compute; reflexivity).
  split; [reflexivity|]. split; [exact Hvalid|].
  exact (proj1 (validateTag_iff_resolveTag Scenario.succeeds
                  (Scenario.opened Scenario.stale) Scenario.stale "rc"
                  Scenario.empty Scenario.installed eq_refl) Hvalid).
Defined.


Lemma install_unresolvable_witness :
  (StoreService.manifest (Scenario.opened Scenario.fresh)
   = Some Scenario.fresh ∧
   ("nightly" ∉ ManifestWorker.versions Scenario.fresh) ∧
   ("nightly" ∉ Object_keys (ManifestWorker.resolutions Scenario.fresh)) ∧
   ("nightly" ∉ Object_prototype)) ∧
  StoreService.install Scenario.succeeds (Scenario.opened Scenario.fresh)
    "nightly" Scenario.empty
  = (Ok (None, Scenario.opened Scenario.fresh),
     reported Scenario.empty
       (Diagnostic.error
          ["Cannot add the 'typescript' package for the 'nightly' tag."])).
Proof.
  assert ("nightly" ∉ ManifestWorker.versions Scenario.fresh) as Hversion
    by by_compute.
  assert ("nightly" ∉ Object_keys (ManifestWorker.resolutions Scenario.fresh))
    as Hkey by by_compute.
  assert ("nightly" ∉ Object_prototype) as Hproto by by_compute.
  split; [by repeat split|].
  exact (install_unresolvable Scenario.succeeds
           (Scenario.opened Scenario.fresh) Scenario.fresh "nightly"
           Scenario.empty eq_refl Hversion Hkey Hproto).
Defined.


Lemma install_failed_install_witness :
  (StoreService.manifest (Scenario.opened Scenario.fresh)
   = Some Scenario.fresh ∧
   CompilerModuleWorker.onDiagnostic
     (StoreService.compilerModuleWorker (Scenario.opened Scenario.fresh))
   = None ∧
   StoreService.resolveTag Scenario.exits_1 (Scenario.opened Scenario.fresh)
     "latest" Scenario.empty
   = (Ok (Some (Str "5.4.2")), Scenario.empty) ∧
   ("/store/5.4.2" ∉ locks Scenario.empty) ∧
   fs Scenario.empty !! "/store/5.4.2/__ready__" = None ∧
   first_failure Scenario.exits_1
     (StoreService.compilerModuleWorker (Scenario.opened Scenario.fresh))
     "5.4.2"
   = Some (JsError "Process exited with code 1.")) ∧
  ∃ w',
    StoreService.install Scenario.exits_1 (Scenario.opened Scenario.fresh)
      "latest" Scenario.empty
    = (Ok (None, Scenario.opened Scenario.fresh), w').
Proof.
  assert (StoreService.resolveTag Scenario.exits_1
            (Scenario.opened Scenario.fresh) "latest" Scenario.empty
          = (Ok (Some (Str "5.4.2")), Scenario.empty)) as Hresolve
    by (vm_compute; reflexivity).
  assert ("/store/5.4.2" ∉ locks Scenario.empty) as Hfree by by_compute.
  assert (fs Scenario.empty !! "/store/5.4.2/__ready__" = None) as Hnone
    by (vm_compute; reflexivity).
  assert (first_failure Scenario.exits_1
            (StoreService.compilerModuleWorker
               (Scenario.opened Scenario.fresh)) "5.4.2"
          = Some (JsError "Process exited with code 1.")) as Hfail
    by (vm_compute; reflexivity).
  split; [by repeat split|].
  destruct (install_failed_install Scenario.exits_1
              (Scenario.opened Scenario.fresh) Scenario.fresh "latest"
              "5.4.2" _ Scenario.empty Scenario.empty eq_refl eq_refl
              Hresolve Hfree Hnone Hfail)
    as (message & calls & w' & Hrun & _).
  by exists w'.
Defined.

(** X14.  With a callback [ensure] never throws, and the only way it
    answers nothing is a wait for a path that was held when it was called;
    every other answer is the path selected for the version. *)
Theorem ensure_answer env this compilerVersion w callback :
  CompilerModuleWorker.onDiagnostic this = Some callback →
  let answer := (CompilerModuleWorker.ensure env this compilerVersion w).1 in
  answer = Ok (Some (modulePath this compilerVersion)) ∨
  answer = Ok None ∧
  Path.join [CompilerModuleWorker.cachePath this; compilerVersion] ∈ locks w.
Proof.
  intros Hcallback answer. subst answer.
  pose proof (ensure_result env this compilerVersion w) as H.
  destruct (CompilerModuleWorker.ensure env this compilerVersion w).1
    as [[path|]|e]; [left; by subst|by right|congruence].
Qed.

Lemma ensure_answer_witness :
  CompilerModuleWorker.onDiagnostic Scenario.worker = Some Scenario.report ∧
  let answer :=
    (CompilerModuleWorker.ensure Cases.waits Scenario.worker "5.4.2"
       Cases.held).1 in
  answer = Ok (Some (modulePath Scenario.worker "5.4.2")) ∨
  answer = Ok None ∧ "/store/5.4.2" ∈ locks Cases.held.
Proof.
  split; [reflexivity|].
  exact (ensure_answer Cases.waits Scenario.worker "5.4.2" Cases.held
           Scenario.report eq_refl).
Defined.

(** ** Loading a compiler *)

Section LoadMore.
Import ManifestWorker StoreService.
Context {TS : Type} (env : Env) (nodeRequire : NodeRequire TS).

(** X15.  [load("local")] in a project that has its own TypeScript: the
    module is required from the resolved path, and the store is not
    involved at all: nothing is sent, nothing installed, the manifest need
    not even be open.  What [require] throws is what [load] throws. *)
Theorem load_local_installation this path w :
  resolve nodeRequire "typescript/lib/tsserverlibrary.js" = Ok path →
  load env nodeRequire this "local" w
  = (Ok (match require nodeRequire path with
         | Ok module => Ok (Some module)
         | Throw e => Throw e
         end,
         this),
     w).
Proof.
  intros Hresolve. unfold load, load_local. cbv zeta.
  rewrite bool_decide_true by done. by rewrite Hresolve.
Qed.

(** X16.  [load("local")] in a project without TypeScript is
    [load("latest")]. *)
Theorem load_local_fallback this e w :
  resolve nodeRequire "typescript/lib/tsserverlibrary.js" = Throw e →
  load env nodeRequire this "local" w = load env nodeRequire this "latest" w.
Proof.
  intros Hresolve. unfold load, load_local. cbv zeta.
  rewrite bool_decide_true by done. rewrite Hresolve.
  by rewrite bool_decide_false by done.
Qed.

(** X17.  [load] before the manifest is open, for a tag that does not
    resolve locally: the "not open" diagnostic is sent, nothing is
    required, and the answer is nothing. *)
Theorem load_not_open this tag w :
  manifest this = None →
  (load_local nodeRequire tag).1 = None →
  load env nodeRequire this tag w = (Ok (Ok None, this), reported w notOpen).
Proof.
  intros Hm Hlocal. unfold load. cbv zeta. rewrite Hlocal.
  unfold install. by rewrite Hm.
Qed.
End LoadMore.

Lemma load_local_installation_witness :
  StoreService.resolve Cases.with_typescript
    "typescript/lib/tsserverlibrary.js"
  = Ok "/project/node_modules/typescript/lib/tsserverlibrary.js" ∧
  StoreService.load Scenario.succeeds Cases.with_typescript Scenario.closed
    "local" Scenario.empty
  = (Ok (Ok (Some
               "module at /project/node_modules/typescript/lib/tsserverlibrary.js"),
         Scenario.closed),
     Scenario.empty).
Proof.
  split; [reflexivity|].
  exact (load_local_installation Scenario.succeeds Cases.with_typescript
           Scenario.closed _ Scenario.empty eq_refl).
Defined.

Lemma load_local_fallback_witness :
  StoreService.resolve Cases.without_typescript
    "typescript/lib/tsserverlibrary.js"
  = Throw
      (JsError "Cannot find module 'typescript/lib/tsserverlibrary.js'") ∧
  StoreService.load Scenario.succeeds Cases.without_typescript
    (Scenario.opened Scenario.fresh) "local" Scenario.empty
  = StoreService.load Scenario.succeeds Cases.without_typescript
      (Scenario.opened Scenario.fresh) "latest" Scenario.empty.
Proof.
  split; [reflexivity|].
  exact (load_local_fallback Scenario.succeeds Cases.without_typescript
           (Scenario.opened Scenario.fresh) _ Scenario.empty eq_refl).
Defined.

Lemma load_not_open_witness :
  (StoreService.manifest Scenario.closed = None ∧
   (StoreService.load_local Cases.without_typescript "local").1 = None) ∧
  StoreService.load Scenario.succeeds Cases.without_typescript
    Scenario.closed "local" Scenario.empty
  = (Ok (Ok None, Scenario.closed),
     reported Scenario.empty StoreService.notOpen).
Proof.
  split; [by split|].
  exact (load_not_open Scenario.succeeds Cases.without_typescript
           Scenario.closed "local" Scenario.empty eq_refl eq_refl).
Defined.

(** ** Pruning the store *)

Lemma prefix_append a b : String.prefix a (a +:+ b) = true.
Proof.
  induction a as [|c a IH]; simpl; [by destruct b|].
  by destruct (ascii_dec c c).
Qed.

Lemma append_assoc a b c : (a +:+ b) +:+ c = a +:+ b +:+ c.
Proof.
  induction a as [|x a IH]; [done|].
  change (String x ((a +:+ b) +:+ c) = String x (a +:+ b +:+ c)).
  by rewrite IH.
Qed.

Lemma below_join root segment :
  StoreService.below root (Path.join [root; segment]) = true.
Proof.
  unfold StoreService.below. rewrite join2, <- append_assoc, prefix_append.
  apply orb_true_r.
Qed.

Lemma below_join_join root a b :
  StoreService.below root (Path.join [Path.join [root; a]; b]) = true.
Proof.
  unfold StoreService.below. rewrite !join2, <- (append_assoc root "/" a).
  rewrite (append_assoc (root +:+ "/")), prefix_append.
  apply orb_true_r.
Qed.

Lemma lookup_remove gone w q :
  fs (StoreService.remove gone w) !! q = if gone q then None else fs w !! q.
Proof.
  unfold StoreService.remove. simpl. destruct (gone q) eqn:Hq.
  - apply map_lookup_filter_None. right. intros x _. simpl. by rewrite Hq.
  - destruct (fs w !! q) as [x|] eqn:Hf.
    + apply map_lookup_filter_Some. by split.
    + apply map_lookup_filter_None. by left.
Qed.

Lemma elem_of_locks_remove gone w q :
  q ∈ locks (StoreService.remove gone w) ↔ gone q = false ∧ q ∈ locks w.
Proof.
  unfold StoreService.remove. simpl.
  exact (elem_of_filter (λ path, gone path = false) (locks w) q).
Qed.

Lemma present_spec root w :
  StoreService.present root w = true ↔
  ∃ q, StoreService.below root q = true ∧
       (is_Some (fs w !! q) ∨ q ∈ locks w).
Proof.
  unfold StoreService.present. rewrite orb_true_iff, !existsb_exists. split.
  - intros [([q x] & Hin & Hq)|(q & Hin & Hq)]; exists q.
    + split; [done|]. left. exists x.
      by apply elem_of_map_to_list, list_elem_of_In.
    + split; [done|]. right. by apply elem_of_elements, list_elem_of_In.
  - intros (q & Hq & [[x Hx]|Hin]).
    + left. exists (q, x). split; [|done].
      by apply list_elem_of_In, elem_of_map_to_list.
    + right. exists q. split; [|done].
      by apply list_elem_of_In, elem_of_elements.
Qed.

Lemma absent_spec root w :
  StoreService.present root w = false ↔
  ∀ q, StoreService.below root q = true → fs w !! q = None ∧ q ∉ locks w.
Proof.
  rewrite <- not_true_iff_false, present_spec. split.
  - intros Hno q Hq. split.
    + destruct (fs w !! q) as [x|] eqn:Hx; [|done].
      destruct Hno. exists q. split; [done|]. left. rewrite Hx. by exists x.
    + intros Hin. destruct Hno. exists q. by split; [|right].
  - intros Hall (q & Hq & [[x Hx]|Hin]); destruct (Hall q Hq) as [Hf Hl].
    + congruence.
    + done.
Qed.

(** X18.  A [prune] that returns normally leaves nothing at or below the
    cache path: for every version, the directory, the descriptor and the
    ready marker that [ensure] uses are gone, and so is the lock
    indicator of the installation path.  What is not below the cache path
    stays, files and lock indicators, and so does the log.  A [prune]
    whose [fs.rm] does not fail returns normally. *)
Theorem prune_clears_installations failure this w :
  let root := StoreService.cachePath this in
  let run := StoreService.prune failure this w in
  (failure = None → run.1 = Ok tt) ∧
  (run.1 = Ok tt →
   (∀ version,
      let p := Path.join [root; version] in
      fs run.2 !! p = None ∧
      fs run.2 !! Path.join [p; "package.json"] = None ∧
      fs run.2 !! Path.join [p; "__ready__"] = None ∧
      p ∉ locks run.2) ∧
   (∀ q, StoreService.below root q = true →
         fs run.2 !! q = None ∧ q ∉ locks run.2) ∧
   (∀ q, StoreService.below root q = false →
         fs run.2 !! q = fs w !! q ∧ (q ∈ locks run.2 ↔ q ∈ locks w)) ∧
   log run.2 = log w).
Proof.
  intros root run. subst run.
  unfold StoreService.prune, StoreService.rm. fold root.
  assert (∀ w' : World,
            (∀ q, StoreService.below root q = true →
                  fs w' !! q = None ∧ q ∉ locks w') →
            ∀ version,
              let p := Path.join [root; version] in
              fs w' !! p = None ∧
              fs w' !! Path.join [p; "package.json"] = None ∧
              fs w' !! Path.join [p; "__ready__"] = None ∧
              p ∉ locks w') as Hversions.
  { intros w' Hgone version p. subst p.
    pose proof (Hgone _ (below_join root version)) as [? ?].
    pose proof (Hgone _ (below_join_join root version "package.json"))
      as [? _].
    pose proof (Hgone _ (below_join_join root version "__ready__")) as [? _].
    done. }
  destruct (StoreService.present root w) eqn:Hpresent.
  - destruct failure as [f|]; cbn [fst snd]; (split; [done|]); [done|].
    intros _.
    assert (∀ q, StoreService.below root q = true →
                 fs (StoreService.remove (StoreService.below root) w) !! q
                 = None ∧
                 q ∉ locks (StoreService.remove (StoreService.below root) w))
      as Hgone.
    { intros q Hq. rewrite lookup_remove, elem_of_locks_remove, Hq.
      split; [done|]. by intros [? _]. }
    split; [exact (Hversions _ Hgone)|]. split; [exact Hgone|].
    split; [|done].
    intros q Hq. rewrite lookup_remove, elem_of_locks_remove, Hq.
    split; [done|tauto].
  - cbn [fst snd]. split; [done|]. intros _.
    pose proof (proj1 (absent_spec root w) Hpresent) as Hgone.
    split; [exact (Hversions _ Hgone)|]. split; [exact Hgone|].
    split; [|done]. done.
Qed.

Lemma prune_clears_installations_witness :
  (StoreService.prune None Scenario.closed Cases.cluttered).1 = Ok tt ∧
  fs (StoreService.prune None Scenario.closed Cases.cluttered).2
    !! "/store/5.4.2/__ready__" = None ∧
  ("/store/5.5.2"
   ∉ locks (StoreService.prune None Scenario.closed Cases.cluttered).2) ∧
  fs (StoreService.prune None Scenario.closed Cases.cluttered).2
    !! "/project/package.json"
  = fs Cases.cluttered !! "/project/package.json".
Proof.
  pose proof (prune_clears_installations None Scenario.closed Cases.cluttered)
    as [Hreturns Hpruned].
  pose proof (Hreturns eq_refl) as Hok.
  destruct (Hpruned Hok) as (Hgone & _ & Hkept & _).
  split; [exact Hok|]. split; [|split].
  - exact (proj1 (proj2 (proj2 (Hgone "5.4.2")))).
  - exact (proj2 (proj2 (proj2 (Hgone "5.5.2")))).
  - exact (proj1 (Hkept "/project/package.json" eq_refl)).
Defined.


